(** * D&D combat mathematics: a shallow embedding of [src/utils/dnd-combat-math.ts]

    The module computes how many attacks are needed to defeat a target,
    once in closed form (negative binomial law) and once by Monte Carlo
    simulation.  JavaScript numbers are embedded as exact rationals [Q]
    (integers as [Z] where the source only ever holds integers), extended
    with the IEEE special values where the source produces or can produce
    them ([jsnum]).  Rounding of binary64 arithmetic is not part of the
    model: every finite operation is exact.  [calculateDistribution], the
    caller of the simulation in [D3Chart.vue], is embedded as well. *)

From Stdlib Require Import Arith ZArith QArith Qround Qminmax Qpower Qfield Lia Lqa Bool.
From Stdlib Require Import Ascii String.
From stdpp Require Import base list.

Local Open Scope Z_scope.

(** ** Numbers *)

(** A JavaScript number that may be one of the IEEE special values. *)
Inductive jsnum : Type :=
| Fin (q : Q)
| PosInf
| NegInf
| NaN.

(** [a / b] on finite operands, with JavaScript's results for a zero
    divisor (signed zeros are not distinguished). *)
Definition jsdiv (a b : Q) : jsnum :=
  if Qeq_bool b 0 then
    match (a ?= 0)%Q with
    | Gt => PosInf
    | Lt => NegInf
    | Eq => NaN
    end
  else Fin (a / b).

(** A value thrown by [throw new Error(msg)], or a returned value. *)
Inductive result (A : Type) : Type :=
| Ok (a : A)
| Throw (msg : string).
Arguments Ok {A} a.
Arguments Throw {A} msg.

Definition Qlt_bool (a b : Q) : bool := negb (Qle_bool b a).

(** What the host gives the module: [Math.sqrt] and the successive values
    of [Math.random()] (the [i]-th call returns [Math_random i]). *)
Record Host : Type := {
  Math_sqrt : Q -> Q;
  Math_random : N -> Q
}.

(** [Math.sqrt] on a possibly special value. *)
Definition jssqrt (h : Host) (x : jsnum) : jsnum :=
  match x with
  | Fin q => if Qlt_bool q 0 then NaN else Fin (Math_sqrt h q)
  | PosInf => PosInf
  | NegInf | NaN => NaN
  end.

(** ** Types *)

Record TTKPoint : Type := {
  attacks : Z;
  prob : Q
}.

(** [StatisticalResults].  The [normalApprox] curve is not embedded: the
    analytic engine samples it from [Math.exp] and [Math.PI] in a bounded
    loop of its own that feeds no other field, and the Monte Carlo engine
    leaves it empty. *)
Record StatisticalResults : Type := {
  hitProbability : Q;
  hitsNeeded : jsnum;
  pmf : list TTKPoint;
  mean : jsnum;
  variance : jsnum;
  stdev : jsnum;
  roundsDistribution : list Q
}.

Record Percentiles : Type := {
  p25 : Z;
  p75 : Z;
  p90 : Z;
  p95 : Z
}.

(** [CombatResults extends StatisticalResults] *)
Record CombatResults : Type := {
  stats : StatisticalResults;
  median : Z;
  mode : Z;
  percentiles : Percentiles
}.

Module DamageResult.
Record t : Type := {
  (* For dice notation like 1d8+3 *)
  numDice : option Z;
  diceSides : option Z;
  modifier : option Z;
  (* For fixed damage like 8 *)
  fixedDamage : option Z;
  (* Computed values for display *)
  average : Q;
  min : Z;
  max : Z;
  criticalAverage : option Q;
  criticalMin : option Z;
  criticalMax : option Z
}.
End DamageResult.

(** ** Damage validation patterns *)

(** Strings are sequences of code units below 256. *)
Definition isSpace (c : ascii) : bool :=
  match c with
  | "009" | "010" | "011" | "012" | "013" | " " | "160" => true
  | _ => false
  end%char.

Definition isDigit (c : ascii) : bool :=
  let n := N_of_ascii c in ((48 <=? n) && (n <=? 57))%N.

Definition digitValue (c : ascii) : Z := Z.of_N (N_of_ascii c) - 48.

(** [\s*], greedy: the input after its leading white space. *)
Fixpoint spaces (s : list ascii) : list ascii :=
  match s with
  | c :: s' => if isSpace c then spaces s' else s
  | [] => []
  end.

(** The longest prefix of digits, and what follows it. *)
Fixpoint digitRun (s : list ascii) : list ascii * list ascii :=
  match s with
  | c :: s' =>
      if isDigit c then let '(d, r) := digitRun s' in (c :: d, r) else ([], s)
  | [] => ([], [])
  end.

(** [(\d+)], greedy: the captured digits and the rest of the input. *)
Definition digits (s : list ascii) : option (list ascii * list ascii) :=
  match digitRun s with
  | ([], _) => None
  | (d, r) => Some (d, r)
  end.

(** [fixedRegex = /^\s*(\d+)\s*$/]: capture group 1 of a match. *)
Definition fixedRegex (s : list ascii) : option (list ascii) :=
  match digits (spaces s) with
  | Some (d, r) => match spaces r with [] => Some d | _ => None end
  | None => None
  end.

(** Capture groups 1 to 4 of [diceRegex]. *)
Record DiceMatch : Type := {
  group1 : list ascii;
  group2 : list ascii;
  group3 : option ascii;
  group4 : option (list ascii)
}.

(** [diceRegex = /^\s*(\d+)\s*[dD]\s*(\d+)\s*(?:([+-])\s*(\d+))?\s*$/].
    The character classes of neighbouring pieces are disjoint, so greedy
    matching never has to backtrack. *)
Definition diceRegex (s : list ascii) : option DiceMatch :=
  match digits (spaces s) with
  | Some (n, r1) =>
      match spaces r1 with
      | c :: r2 =>
          if (Ascii.eqb c "d" || Ascii.eqb c "D")%char then
            match digits (spaces r2) with
            | Some (m, r3) =>
                match spaces r3 with
                | [] => Some {| group1 := n; group2 := m; group3 := None; group4 := None |}
                | o :: r4 =>
                    if (Ascii.eqb o "+" || Ascii.eqb o "-")%char then
                      match digits (spaces r4) with
                      | Some (k, r5) =>
                          match spaces r5 with
                          | [] => Some {| group1 := n; group2 := m;
                                          group3 := Some o; group4 := Some k |}
                          | _ => None
                          end
                      | None => None
                      end
                    else None
                end
            | None => None
            end
          else None
      | [] => None
      end
  | None => None
  end.

(** [String.prototype.trim] *)
Definition trim (s : list ascii) : list ascii :=
  rev (spaces (rev (spaces s))).

(** [parseInt] on a run of decimal digits. *)
Definition parseInt (d : list ascii) : Z :=
  fold_left (fun acc c => acc * 10 + digitValue c) d 0.

(** Validate damage input string *)
Definition isValidDamageInput (damage : string) : bool :=
  let cleaned := trim (list_ascii_of_string damage) in
  bool_decide (is_Some (diceRegex cleaned)) || bool_decide (is_Some (fixedRegex cleaned)).

(** Parse damage input string into DamageResult *)
Definition parseDamageInput (damageInput : string) : DamageResult.t :=
  let cleaned := trim (list_ascii_of_string damageInput) in
  (* Try fixed damage first *)
  match fixedRegex cleaned with
  | Some fixedMatch1 =>
      let damage := parseInt fixedMatch1 in
      {| DamageResult.numDice := None;
         DamageResult.diceSides := None;
         DamageResult.modifier := None;
         DamageResult.fixedDamage := Some damage;
         DamageResult.average := inject_Z damage;
         DamageResult.min := damage;
         DamageResult.max := damage;
         DamageResult.criticalAverage := Some (inject_Z (damage * 2));
         DamageResult.criticalMin := Some (damage * 2);
         DamageResult.criticalMax := Some (damage * 2) |}
  | None =>
      (* Try dice notation *)
      match diceRegex cleaned with
      | Some diceMatch =>
          let numDice := parseInt (group1 diceMatch) in
          let sides := parseInt (group2 diceMatch) in
          let operator := default "+"%char (group3 diceMatch) in
          let modifier :=
            match group4 diceMatch with Some k => parseInt k | None => 0 end in
          let actualModifier :=
            if Ascii.eqb operator "-" then - modifier else modifier in
          let min := numDice + actualModifier in
          let max := numDice * sides + actualModifier in
          let average :=
            (inject_Z (numDice * (sides + 1)) / 2 + inject_Z actualModifier)%Q in
          (* Critical hits: double the dice, same modifier *)
          let criticalMin := (numDice * 2) + actualModifier in
          let criticalMax := (numDice * 2 * sides) + actualModifier in
          let criticalAverage :=
            (inject_Z (numDice * 2 * (sides + 1)) / 2 + inject_Z actualModifier)%Q in
          {| DamageResult.numDice := Some numDice;
             DamageResult.diceSides := Some sides;
             DamageResult.modifier := Some actualModifier;
             DamageResult.fixedDamage := None;
             DamageResult.average := average;
             DamageResult.min := Z.max 0 min;
             DamageResult.max := Z.max 0 max;
             DamageResult.criticalAverage := Some (Qmax 0 criticalAverage);
             DamageResult.criticalMin := Some (Z.max 0 criticalMin);
             DamageResult.criticalMax := Some (Z.max 0 criticalMax) |}
      | None =>
          (* Fallback *)
          {| DamageResult.numDice := None;
             DamageResult.diceSides := None;
             DamageResult.modifier := None;
             DamageResult.fixedDamage := Some 1;
             DamageResult.average := 1;
             DamageResult.min := 1;
             DamageResult.max := 1;
             DamageResult.criticalAverage := Some 2%Q;
             DamageResult.criticalMin := Some 2;
             DamageResult.criticalMax := Some 2 |}
      end
  end.

(** ** Hit probability *)

(** [d20HitProb(attackModifier, armorClass, enforceNatRules)] *)
Definition d20HitProb (attackModifier armorClass : Q) (enforceNatRules : bool) : Q :=
  let raw := ((21 + attackModifier - armorClass) / 20)%Q in
  let p := Qmax 0 (Qmin 1 raw) in
  if enforceNatRules then
    (* Natural 1 always misses, natural 20 always hits *)
    Qmax (1 / 20) (Qmin (19 / 20) p)
  else p.

(** The clamp of the specification: [x] forced into [[lo, hi]]. *)
Definition clamp (x lo hi : Q) : Q :=
  if Qlt_bool x lo then lo else if Qlt_bool hi x then hi else x.

(** ** Negative binomial law *)

(** The [while (b)] loop of [gcd]; [b] strictly decreases, so
    [S (Z.to_nat b)] rounds of fuel are never used up. *)
Fixpoint gcd_loop (fuel : nat) (a b : Z) : Z :=
  if b =? 0 then a
  else
    match fuel with
    | S fuel' => let t := b in gcd_loop fuel' t (a mod b)
    | O => a
    end.

Definition gcd (a b : Z) : Z :=
  let a := Z.abs a in
  let b := Z.abs b in
  let a := gcd_loop (S (Z.to_nat b)) a b in
  if a =? 0 then 1 else a.

(** The [for (let i = 1; i <= k; i++)] loop of [comb]; [num /= g] and
    [den /= g] are exact because [g] divides both. *)
Fixpoint comb_loop (fuel : nat) (n k i num den : Z) : Z * Z :=
  if i <=? k then
    match fuel with
    | S fuel' =>
        let num := num * (n - (k - i)) in
        let den := den * i in
        let g := gcd num den in
        comb_loop fuel' n k (i + 1) (num / g) (den / g)
    | O => (num, den)
    end
  else (num, den).

(** Numerically stable binomial coefficient *)
Definition comb (n k : Z) : Q :=
  if (k <? 0) || (n <? k) then 0%Q
  else
    let k := Z.min k (n - k) in
    let '(num, den) := comb_loop (Z.to_nat k) n k 1 1 1 in
    (inject_Z num / inject_Z den)%Q.

(** Negative Binomial PMF: P(N = n) where N = #trials to get r successes
    with hit prob p. *)
Definition negBinomPMF (n r : Z) (p : Q) : Q :=
  if n <? r then 0%Q
  else (comb (n - 1) (r - 1) * p ^ r * (1 - p) ^ (n - r))%Q.

(** ** Analytic engine *)

Definition maxTailProb : Q := 1 # 1000000.

(** The [while (tail > maxTailProb && n - hitsNeeded < 1000)] loop.
    [None] stands for running out of fuel with the guard still true. *)
Fixpoint pmfLoop (fuel : nat) (hitsNeeded : Z) (hitProbability : Q)
    (pmf : list TTKPoint) (n : Z) (tail : Q) : option (list TTKPoint) :=
  if Qlt_bool maxTailProb tail && (n - hitsNeeded <? 1000) then
    match fuel with
    | S fuel' =>
        let prob := negBinomPMF n hitsNeeded hitProbability in
        pmfLoop fuel' hitsNeeded hitProbability
          (pmf ++ [{| attacks := n; prob := prob |}]) (n + 1) (tail - prob)%Q
    | O => None
    end
  else Some pmf.

(** Standard TTK distribution calculation using Negative Binomial
    Distribution.  [None] is a loop that did not finish. *)
Definition timeToKillDistribution (h : Host)
    (attackModifier armorClass damage health : Q)
    (useCriticalMechanics : bool) : option (result StatisticalResults) :=
  if Qle_bool damage 0 then Some (Throw "damage must be > 0")
  else if Qle_bool health 0 then Some (Throw "health must be > 0")
  else
    (* 1) Hit probability from d20 check *)
    let hitProbability := d20HitProb attackModifier armorClass useCriticalMechanics in
    if Qeq_bool hitProbability 0 then
      Some (Ok {| hitProbability := hitProbability;
                  hitsNeeded := PosInf;
                  pmf := [];
                  mean := PosInf;
                  variance := PosInf;
                  stdev := PosInf;
                  roundsDistribution := [] |})
    else
      let hitsNeeded := Qceiling (health / damage) in
      (* 2) Exact PMF calculation *)
      match pmfLoop 1000 hitsNeeded hitProbability [] hitsNeeded 1 with
      | None => None
      | Some pmf =>
          (* 3) Moments *)
          let mean := (inject_Z hitsNeeded / hitProbability)%Q in
          let variance :=
            ((inject_Z hitsNeeded * (1 - hitProbability))
             / (hitProbability * hitProbability))%Q in
          let stdev := jssqrt h (Fin variance) in
          (* Convert to rounds distribution for visualization *)
          let roundsDistribution := map (fun point => (prob point * 100)%Q) pmf in
          Some (Ok {| hitProbability := hitProbability;
                      hitsNeeded := Fin (inject_Z hitsNeeded);
                      pmf := pmf;
                      mean := Fin mean;
                      variance := Fin variance;
                      stdev := stdev;
                      roundsDistribution := roundsDistribution |})
      end.

(** ** Random draws *)

(** A computation that calls [Math.random()]: it is given the number of
    calls made so far and returns its value with the new number. *)
Definition Rand (A : Type) : Type := N -> A * N.

Definition ret {A : Type} (a : A) : Rand A := fun i => (a, i).

Definition bind {A B : Type} (m : Rand A) (k : A -> Rand B) : Rand B :=
  fun i => let '(a, i') := m i in k a i'.

Notation "'let*' x ':=' m 'in' k" := (bind m (fun x => k))
  (at level 10, x name, m at level 100, k at level 200).

(** [Math.random()] *)
Definition random (h : Host) : Rand Q := fun i => (Math_random h i, N.succ i).

(** Roll a single die with the specified number of sides *)
Definition rollDie (h : Host) (sides : Z) : Rand Z :=
  let* r := random h in
  ret (Qfloor (r * inject_Z sides) + 1).

(** The [for (let i = 0; i < diceToRoll; i++)] loop of [rollDamage]. *)
Fixpoint rollDice (h : Host) (diceToRoll : nat) (diceSides total : Z) : Rand Z :=
  match diceToRoll with
  | O => ret total
  | S rest =>
      let* d := rollDie h diceSides in
      rollDice h rest diceSides (total + d)
  end.

(** Roll damage dice and return the total *)
Definition rollDamage (h : Host) (damage : DamageResult.t) (isCritical : bool) : Rand Z :=
  match DamageResult.fixedDamage damage with
  | Some fixedDamage => ret (if isCritical then fixedDamage * 2 else fixedDamage)
  | None =>
      match DamageResult.numDice damage, DamageResult.diceSides damage with
      | Some numDice, Some diceSides =>
          if (numDice =? 0) || (diceSides =? 0) then ret 1 (* Fallback *)
          else
            let diceToRoll := if isCritical then numDice * 2 else numDice in
            let* total := rollDice h (Z.to_nat diceToRoll) diceSides 0 in
            ret (total + default 0 (DamageResult.modifier damage))
      | _, _ => ret 1 (* Fallback *)
      end
  end.

(** ** Monte Carlo engine *)

Section MonteCarlo.
Variable h : Host.
Variables attackModifier armorClass : Q.
Variable damage : DamageResult.t.
Variable health : Q.
Variable useCriticalMechanics : bool.
Variable maxAttacks : Z.

(** One round of the [while] loop of a trial: the remaining health
    after one more attack. *)
Definition attackOnce (remainingHealth : Q) : Rand Q :=
  (* Roll d20 attack *)
  let* r := random h in
  let d20Roll := Qfloor (r * 20) + 1 in
  let attackTotal := (inject_Z d20Roll + attackModifier)%Q in
  let '(hits, isCritical) :=
    if useCriticalMechanics then
      if d20Roll =? 1 then (false, false) (* Natural 1 always misses *)
      else if d20Roll =? 20 then (true, true) (* Natural 20 always hits *)
      else (Qle_bool armorClass attackTotal, false)
    else (Qle_bool armorClass attackTotal, false) in
  if hits then
    let* damageDealt := rollDamage h damage isCritical in
    ret (remainingHealth - inject_Z damageDealt)%Q
  else ret remainingHealth.

(** [while (remainingHealth > 0 && attacks < maxAttacks)].  The loop
    runs at most [maxAttacks - attacks] rounds; with that much fuel it
    always leaves through its guard. *)
Fixpoint attackLoop (fuel : nat) (remainingHealth : Q) (attacks : Z) : Rand (Q * Z) :=
  if Qlt_bool 0 remainingHealth && (attacks <? maxAttacks) then
    match fuel with
    | S fuel' =>
        let attacks := attacks + 1 in
        let* remainingHealth := attackOnce remainingHealth in
        attackLoop fuel' remainingHealth attacks
    | O => ret (remainingHealth, attacks)
    end
  else ret (remainingHealth, attacks).

(** One trial: [let remainingHealth = health; let attacks = 0] and the
    [while] loop. *)
Definition trial : Rand (Q * Z) :=
  attackLoop (Z.to_nat maxAttacks) health 0.

(** [if (attacks < maxAttacks) attackCounts[attacks]++] *)
Definition record (attackCounts : list Z) (attacks : Z) : list Z :=
  if attacks <? maxAttacks then alter Z.succ (Z.to_nat attacks) attackCounts
  else attackCounts.

(** [for (let sim = 0; sim < numSimulations; sim++)] *)
Fixpoint simLoop (sims : nat) (attackCounts : list Z) : Rand (list Z) :=
  match sims with
  | O => ret attackCounts
  | S rest =>
      let* outcome := trial in
      let '(remainingHealth, attacks) := outcome in
      simLoop rest (record attackCounts attacks)
  end.

(** First [for (let i = 1; i <= maxAttacks; i++)] loop: the number of
    counted trials. *)
Definition totalCountLoop (attackCounts : list Z) : Z :=
  fold_left
    (fun totalCount i =>
       match attackCounts !! Z.to_nat i with
       | Some c => if 0 <? c then totalCount + c else totalCount
       | None => totalCount
       end)
    (seqZ 1 maxAttacks) 0.

(** Second loop: the points of the PMF with the running [mean] and
    [variance] sums. *)
Definition pmfStep (attackCounts : list Z) (totalCount : Z)
    (acc : list TTKPoint * Q * Q) (i : Z) : list TTKPoint * Q * Q :=
  let '(pmf, mean, variance) := acc in
  match attackCounts !! Z.to_nat i with
  | Some c =>
      if 0 <? c then
        let prob := (inject_Z c / inject_Z totalCount)%Q in
        (pmf ++ [{| attacks := i; prob := prob |}],
         (mean + inject_Z i * prob)%Q,
         (variance + inject_Z i * inject_Z i * prob)%Q)
      else acc
  | None => acc
  end.

Definition empiricalLoop (attackCounts : list Z) (totalCount : Z)
    : list TTKPoint * Q * Q :=
  fold_left (pmfStep attackCounts totalCount) (seqZ 1 maxAttacks) ([], 0%Q, 0%Q).

(** Find mode (most probable number of attacks): the state is
    [(mode, maxProb)]. *)
Definition modeLoop (pmf : list TTKPoint) : Z * Q :=
  fold_left
    (fun st point =>
       let '(mode, maxProb) := st in
       if Qlt_bool maxProb (prob point) then (attacks point, prob point)
       else (mode, maxProb))
    pmf (1, 0%Q).

(** Estimate effective hits needed *)
Definition effectiveHitsNeeded : jsnum :=
  let average := DamageResult.average damage in
  if useCriticalMechanics then
    match DamageResult.criticalAverage damage with
    | Some criticalAverage =>
        jsdiv health (average + (5 # 100) * (criticalAverage - average))
    | None => NaN
    end
  else jsdiv health (average + 0).
End MonteCarlo.

(** State of the median and percentile scan. *)
Record ScanState : Type := {
  cumulativeProb : Q;
  scanMedian : Z;
  scanP25 : Z;
  scanP75 : Z;
  scanP90 : Z;
  scanP95 : Z
}.

(** One round of [for (const point of pmf)] in the median and percentile
    calculation. *)
Definition scanStep (st : ScanState) (point : TTKPoint) : ScanState :=
  let cumulativeProb := (cumulativeProb st + prob point)%Q in
  {| cumulativeProb := cumulativeProb;
     scanMedian :=
       if (scanMedian st =? 1) && Qle_bool (5 # 10) cumulativeProb
       then attacks point else scanMedian st;
     scanP25 :=
       if (scanP25 st =? 1) && Qle_bool (25 # 100) cumulativeProb
       then attacks point else scanP25 st;
     scanP75 :=
       if (scanP75 st =? 1) && Qle_bool (75 # 100) cumulativeProb
       then attacks point else scanP75 st;
     scanP90 :=
       if (scanP90 st =? 1) && Qle_bool (90 # 100) cumulativeProb
       then attacks point else scanP90 st;
     scanP95 :=
       if (scanP95 st =? 1) && Qle_bool (95 # 100) cumulativeProb
       then attacks point else scanP95 st |}.

Definition scanInit : ScanState :=
  {| cumulativeProb := 0; scanMedian := 1;
     scanP25 := 1; scanP75 := 1; scanP90 := 1; scanP95 := 1 |}.

(** Calculate median and percentiles *)
Definition percentileScan (pmf : list TTKPoint) : ScanState :=
  fold_left scanStep pmf scanInit.

(** Everything [timeToKillWithCriticals] does after the trials, from the
    filled [attackCounts]. *)
Definition summarize (h : Host) (attackModifier armorClass : Q)
    (damage : DamageResult.t) (health : Q) (useCriticalMechanics : bool)
    (maxAttacks : Z) (attackCounts : list Z) : CombatResults :=
  (* Convert counts to probabilities *)
  let totalCount := totalCountLoop maxAttacks attackCounts in
  let '(pmf, mean, variance) := empiricalLoop maxAttacks attackCounts totalCount in
  let variance := (variance - mean * mean)%Q in
  let stdev := jssqrt h (Fin variance) in
  (* Calculate hit probability *)
  let hitProbability := d20HitProb attackModifier armorClass useCriticalMechanics in
  let '(mode, maxProb) := modeLoop pmf in
  let st := percentileScan pmf in
  {| stats :=
       {| hitProbability := hitProbability;
          hitsNeeded := effectiveHitsNeeded damage health useCriticalMechanics;
          pmf := pmf;
          mean := Fin mean;
          variance := Fin variance;
          stdev := stdev;
          roundsDistribution := [] |};
     median := scanMedian st;
     mode := mode;
     percentiles :=
       {| p25 := scanP25 st; p75 := scanP75 st;
          p90 := scanP90 st; p95 := scanP95 st |} |}.

Definition numSimulations : Z := 100000.
Definition maxAttacks : Z := 200.

(** Monte Carlo simulation for time-to-kill with accurate dice rolling *)
Definition timeToKillWithCriticals (h : Host) (attackModifier armorClass : Q)
    (damage : DamageResult.t) (health : Q) (useCriticalMechanics : bool)
    : Rand (result CombatResults) :=
  if Qle_bool health 0 then ret (Throw "health must be > 0")
  else
    let attackCounts := replicate (Z.to_nat (maxAttacks + 1)) 0 in
    let* attackCounts :=
      simLoop h attackModifier armorClass damage health useCriticalMechanics
        maxAttacks (Z.to_nat numSimulations) attackCounts in
    ret (Ok (summarize h attackModifier armorClass damage health
               useCriticalMechanics maxAttacks attackCounts)).

(** ** Notions used to state the properties *)

Definition sumZ (l : list Z) : Z := fold_right Z.add 0 l.

Definition sumQ (l : list Q) : Q := fold_right Qplus 0%Q l.

(** What the two counting loops read at index [i]: the count when it is
    positive, and 0 otherwise. *)
Definition countedAt (attackCounts : list Z) (i : Z) : Z :=
  match attackCounts !! Z.to_nat i with
  | Some c => if 0 <? c then c else 0
  | None => 0
  end.

(** The point, if any, that the PMF loop emits at index [i]. *)
Definition pointAt (attackCounts : list Z) (totalCount i : Z) : list TTKPoint :=
  if 0 <? countedAt attackCounts i then
    [{| attacks := i;
        prob := (inject_Z (countedAt attackCounts i) / inject_Z totalCount)%Q |}]
  else [].

(** The attack counts at which the successive trials of a run stop. *)
Fixpoint trialOutcomes (h : Host) (attackModifier armorClass : Q)
    (damage : DamageResult.t) (health : Q) (useCriticalMechanics : bool)
    (maxAttacks : Z) (sims : nat) : Rand (list Z) :=
  match sims with
  | O => ret []
  | S rest =>
      let* outcome :=
        trial h attackModifier armorClass damage health useCriticalMechanics
          maxAttacks in
      let* outcomes :=
        trialOutcomes h attackModifier armorClass damage health
          useCriticalMechanics maxAttacks rest in
      ret (snd outcome :: outcomes)
  end.

(** How many of the trials stopped at attack count [i]. *)
Definition frequency (outcomes : list Z) (i : Z) : Z :=
  Z.of_nat (length (filter (fun a => a = i) outcomes)).

(** How many of the trials were counted. *)
Definition retainedCount (maxAttacks : Z) (outcomes : list Z) : Z :=
  Z.of_nat (length (filter (fun a => a < maxAttacks) outcomes)).

(** Attack counts strictly increase along a PMF and stay above [b]. *)
Fixpoint ascendingFrom (b : Z) (pmf : list TTKPoint) : Prop :=
  match pmf with
  | [] => True
  | point :: rest => b < attacks point /\ ascendingFrom (attacks point) rest
  end.

(** The first attack count, in the order of the PMF, at which the
    cumulative mass reaches [threshold]; [None] when it never does. *)
Fixpoint firstReaching (threshold cumulative : Q) (pmf : list TTKPoint) : option Z :=
  match pmf with
  | [] => None
  | point :: rest =>
      let cumulative := (cumulative + prob point)%Q in
      if Qle_bool threshold cumulative then Some (attacks point)
      else firstReaching threshold cumulative rest
  end.

(** What the scan knows about two markers with thresholds [t1 <= t2]
    after the points up to attack count [b]: both lie between 1 and [b];
    the upper one is still 1 only while its threshold is unreached or
    the lower one is 1 too; once it has moved, the lower one has moved
    and does not exceed it. *)
Definition markersOrdered (t2 cumulative : Q) (m1 m2 b : Z) : Prop :=
  1 <= m1 <= Z.max b 1 /\ 1 <= m2 <= Z.max b 1 /\
  ((m2 = 1 /\ (Qle_bool t2 cumulative = false \/ m1 = 1)) \/
   (m2 <> 1 /\ m1 <> 1 /\ m1 <= m2)).

Definition scanOrdered (b : Z) (st : ScanState) : Prop :=
  markersOrdered (5 # 10) (cumulativeProb st) (scanP25 st) (scanMedian st) b /\
  markersOrdered (75 # 100) (cumulativeProb st) (scanMedian st) (scanP75 st) b /\
  markersOrdered (90 # 100) (cumulativeProb st) (scanP75 st) (scanP90 st) b /\
  markersOrdered (95 # 100) (cumulativeProb st) (scanP90 st) (scanP95 st) b.

(** ** Hosts used in the examples *)

(** Every call of [Math.random()] returns 0: every d20 shows 1. *)
Definition zeroHost : Host :=
  {| Math_sqrt := fun q => q; Math_random := fun _ => 0%Q |}.

(** The first call returns 0 (the d20 shows 1), every later call 0.95
    (the d20 shows 20). *)
Definition firstMissHost : Host :=
  {| Math_sqrt := fun q => q;
     Math_random := fun i => if (i =? 0)%N then 0%Q else (19 # 20)%Q |}.

(** The first 199 calls return 0 (the d20 shows 1), every later call
    0.95 (the d20 shows 20). *)
Definition lateHitHost : Host :=
  {| Math_sqrt := fun q => q;
     Math_random := fun i => if (i <? 199)%N then 0%Q else (19 # 20)%Q |}.

(** The fallback result of [parseDamageInput]. *)
Definition fallbackDamage : DamageResult.t :=
  {| DamageResult.numDice := None;
     DamageResult.diceSides := None;
     DamageResult.modifier := None;
     DamageResult.fixedDamage := Some 1;
     DamageResult.average := 1;
     DamageResult.min := 1;
     DamageResult.max := 1;
     DamageResult.criticalAverage := Some 2%Q;
     DamageResult.criticalMin := Some 2;
     DamageResult.criticalMax := Some 2 |}.

(** A run of white space, possibly empty. *)
Definition allSpaces (ws : list ascii) : Prop := forallb isSpace ws = true.

(** A non-empty run of decimal digits. *)
Definition isNumber (d : list ascii) : Prop :=
  d <> [] /\ forallb isDigit d = true.

(** The binomial coefficient of the specification, by Pascal's rule. *)
Fixpoint choose (n k : nat) : nat :=
  match k, n with
  | O, _ => 1
  | S _, O => 0
  | S k', S n' => choose n' k' + choose n' k
  end%nat.

(** ** Further notions *)

(** The record [parseDamageInput] returns for fixed damage [damage]. *)
Definition fixedResult (damage : Z) : DamageResult.t :=
  {| DamageResult.numDice := None;
     DamageResult.diceSides := None;
     DamageResult.modifier := None;
     DamageResult.fixedDamage := Some damage;
     DamageResult.average := inject_Z damage;
     DamageResult.min := damage;
     DamageResult.max := damage;
     DamageResult.criticalAverage := Some (inject_Z (damage * 2));
     DamageResult.criticalMin := Some (damage * 2);
     DamageResult.criticalMax := Some (damage * 2) |}.

(** The record [parseDamageInput] returns for [numDice] dice of [sides]
    sides with the signed modifier [actualModifier]. *)
Definition diceResult (numDice sides actualModifier : Z) : DamageResult.t :=
  {| DamageResult.numDice := Some numDice;
     DamageResult.diceSides := Some sides;
     DamageResult.modifier := Some actualModifier;
     DamageResult.fixedDamage := None;
     DamageResult.average :=
       (inject_Z (numDice * (sides + 1)) / 2 + inject_Z actualModifier)%Q;
     DamageResult.min := Z.max 0 (numDice + actualModifier);
     DamageResult.max := Z.max 0 (numDice * sides + actualModifier);
     DamageResult.criticalAverage :=
       Some (Qmax 0 (inject_Z (numDice * 2 * (sides + 1)) / 2
                     + inject_Z actualModifier)%Q);
     DamageResult.criticalMin := Some (Z.max 0 (numDice * 2 + actualModifier));
     DamageResult.criticalMax :=
       Some (Z.max 0 (numDice * 2 * sides + actualModifier)) |}.

(** The hit decision of [attackOnce] for a given d20 roll: whether the
    attack hits and whether it is critical. *)
Definition attackHits (attackModifier armorClass : Q)
    (useCriticalMechanics : bool) (d20Roll : Z) : bool * bool :=
  let attackTotal := (inject_Z d20Roll + attackModifier)%Q in
  if useCriticalMechanics then
    if d20Roll =? 1 then (false, false) (* Natural 1 always misses *)
    else if d20Roll =? 20 then (true, true) (* Natural 20 always hits *)
    else (Qle_bool armorClass attackTotal, false)
  else (Qle_bool armorClass attackTotal, false).

(** How many of the twenty faces of the d20 make the attack hit. *)
Definition hittingFaces (attackModifier armorClass : Q)
    (useCriticalMechanics : bool) : Z :=
  Z.of_nat
    (length
       (filter
          (fun d20Roll =>
             fst (attackHits attackModifier armorClass useCriticalMechanics
                    d20Roll) = true)
          (seqZ 1 20))).

(** [Math.random()] keeps its contract: every value lies in [[0, 1)]. *)
Definition goodRandom (h : Host) : Prop :=
  forall i, (0 <= Math_random h i < 1)%Q.


(** ** The chart component *)

(** [characterStats] of [D3Chart.vue]. *)
Record CharacterStats : Type := {
  attackBonus : Q;
  enemyAC : Q;
  enemyHP : Q;
  useCriticalMechanics : bool
}.

(** [calculateDistribution] of [D3Chart.vue], on the text held in
    [lastValidDamageInput]: the value it stores in [results], [None] for
    [null].  The test [!damageResult] never applies, an object being
    truthy; the [catch] turns a thrown error into [null]. *)
Definition calculateDistribution (h : Host) (characterStats : CharacterStats)
    (lastValidDamageInput : string) : Rand (option CombatResults) :=
  let damageResult := parseDamageInput lastValidDamageInput in
  let* out :=
    timeToKillWithCriticals h (attackBonus characterStats)
      (enemyAC characterStats) damageResult (enemyHP characterStats)
      (useCriticalMechanics characterStats) in
  ret (match out with
       | Ok res => Some res
       | Throw _ => None
       end).

(** * Properties *)

Lemma Qlt_bool_iff a b : Qlt_bool a b = true <-> (a < b)%Q.
Proof.
  unfold Qlt_bool. rewrite negb_true_iff, <- not_true_iff_false, Qle_bool_iff.
  split; [apply Qnot_le_lt | apply Qlt_not_le].
Qed.

Lemma Qlt_bool_false a b : Qlt_bool a b = false <-> (b <= a)%Q.
Proof.
  unfold Qlt_bool. rewrite negb_false_iff, Qle_bool_iff. tauto.
Qed.

Lemma clamp_minmax x lo hi :
  (lo <= hi)%Q -> (Qmax lo (Qmin hi x) == clamp x lo hi)%Q.
Proof.
  intros Hlh. unfold clamp.
  destruct (Qlt_bool x lo) eqn:E1.
  - apply Qlt_bool_iff in E1.
    apply Q.max_l. eapply Qle_trans; [apply Q.le_min_r|]. apply Qlt_le_weak, E1.
  - apply Qlt_bool_false in E1.
    destruct (Qlt_bool hi x) eqn:E2.
    + apply Qlt_bool_iff in E2.
      rewrite Q.min_l by (apply Qlt_le_weak, E2). apply Q.max_r, Hlh.
    + apply Qlt_bool_false in E2.
      rewrite Q.min_r by exact E2. apply Q.max_r, E1.
Qed.

Lemma clamp_bounds x lo hi : (lo <= hi)%Q -> (lo <= clamp x lo hi <= hi)%Q.
Proof.
  intros Hlh. unfold clamp.
  destruct (Qlt_bool x lo) eqn:E1; [split; [apply Qle_refl | exact Hlh]|].
  apply Qlt_bool_false in E1.
  destruct (Qlt_bool hi x) eqn:E2; [split; [exact Hlh | apply Qle_refl]|].
  apply Qlt_bool_false in E2. split; assumption.
Qed.

Lemma d20HitProb_raw_range a ac : (0 <= d20HitProb a ac false <= 1)%Q.
Proof.
  unfold d20HitProb. rewrite clamp_minmax by discriminate.
  apply clamp_bounds. discriminate.
Qed.

(** C2: without natural-roll rules the hit probability is exactly
    clamp((21 + attackModifier - armorClass) / 20, 0, 1) and lies in [0, 1];
    with the rules enforced it is that value clamped once more into
    [1/20, 19/20], hence inside [0.05, 0.95]. *)
Theorem d20HitProb_clamp (attackModifier armorClass : Q) :
  let raw := ((21 + attackModifier - armorClass) / 20)%Q in
  (d20HitProb attackModifier armorClass false == clamp raw 0 1)%Q /\
  (0 <= d20HitProb attackModifier armorClass false <= 1)%Q /\
  (d20HitProb attackModifier armorClass true
     == clamp (clamp raw 0 1) (1 / 20) (19 / 20))%Q /\
  (5 # 100 <= d20HitProb attackModifier armorClass true <= 95 # 100)%Q.
Proof.
  intros raw.
  assert (H01 : (0 <= 1)%Q) by discriminate.
  assert (Hn : (1 / 20 <= 19 / 20)%Q) by discriminate.
  split; [apply clamp_minmax, H01|].
  split; [apply d20HitProb_raw_range|].
  assert (Hc : (d20HitProb attackModifier armorClass true
                == clamp (clamp raw 0 1) (1 / 20) (19 / 20))%Q).
  { rewrite <- (clamp_minmax (clamp raw 0 1)) by exact Hn.
    rewrite <- (clamp_minmax raw 0 1 H01). reflexivity. }
  split; [exact Hc|].
  rewrite Hc.
  destruct (clamp_bounds (clamp raw 0 1) (1 / 20) (19 / 20) Hn) as [Hl Hu].
  split.
  - eapply Qle_trans; [|exact Hl]. discriminate.
  - eapply Qle_trans; [exact Hu|]. discriminate.
Qed.

(** ** The binomial coefficient *)

Lemma choose_0_r n : choose n 0 = 1%nat.
Proof. destruct n; reflexivity. Qed.

Lemma choose_S n k : choose (S n) (S k) = (choose n k + choose n (S k))%nat.
Proof. reflexivity. Qed.

Lemma choose_lt n k : (n < k)%nat -> choose n k = 0%nat.
Proof.
  revert k. induction n as [|n IH]; intros [|k] Hnk; try lia; [reflexivity|].
  rewrite choose_S, !IH by lia. reflexivity.
Qed.

Lemma choose_diag n : choose n n = 1%nat.
Proof.
  induction n as [|n IH]; [reflexivity|].
  rewrite choose_S, IH, choose_lt by lia. reflexivity.
Qed.

(** [choose (m + k) k * m! * k! = (m + k)!] *)
Lemma choose_fact m k :
  (choose (m + k) k * (fact m * fact k) = fact (m + k))%nat.
Proof.
  remember (m + k)%nat as s eqn:Hs. revert m k Hs.
  induction s as [|s IH]; intros m k Hs.
  - assert (m = 0 /\ k = 0)%nat as [-> ->] by lia. reflexivity.
  - destruct k as [|k].
    + rewrite choose_0_r. replace m with (S s) by lia. simpl fact at 2. lia.
    + destruct m as [|m].
      * replace (S s) with (S k) by lia.
        rewrite choose_diag. simpl fact at 1. lia.
      * rewrite choose_S.
        assert (H1 := IH (S m) k ltac:(lia)).
        assert (H2 := IH m (S k) ltac:(lia)).
        transitivity (S k * (choose s k * (fact (S m) * fact k))
                      + S m * (choose s (S k) * (fact m * fact (S k))))%nat.
        { change (fact (S m)) with (S m * fact m)%nat.
          change (fact (S k)) with (S k * fact k)%nat. ring. }
        rewrite H1, H2.
        change (fact (S s)) with (S s * fact s)%nat.
        replace (S s) with (S k + S m)%nat by lia. ring.
Qed.

Lemma fact_pos n : (0 < fact n)%nat.
Proof. apply Nat.neq_0_lt_0, fact_neq_0. Qed.

Lemma choose_sym m k : choose (m + k) k = choose (m + k) m.
Proof.
  assert (H1 := choose_fact m k).
  assert (H2 := choose_fact k m).
  replace (k + m)%nat with (m + k)%nat in H2 by lia.
  assert (Hp : (0 < fact m * fact k)%nat)
    by (apply Nat.mul_pos_pos; apply fact_pos).
  apply (Nat.mul_cancel_r _ _ (fact m * fact k)); [lia|].
  rewrite H1, (Nat.mul_comm (fact m)), H2. reflexivity.
Qed.

(** Absorption: [(k + 1) * C(m + k + 1, k + 1) = (m + k + 1) * C(m + k, k)]. *)
Lemma choose_absorb m k :
  (S k * choose (m + S k) (S k) = (m + S k) * choose (m + k) k)%nat.
Proof.
  assert (H1 := choose_fact m (S k)).
  assert (H2 := choose_fact m k).
  assert (Hp : (0 < fact m * fact k)%nat)
    by (apply Nat.mul_pos_pos; apply fact_pos).
  apply (Nat.mul_cancel_r _ _ (fact m * fact k)); [lia|].
  transitivity (fact (m + S k)).
  - rewrite <- H1. change (fact (S k)) with (S k * fact k)%nat. ring.
  - replace (m + S k)%nat with (S (m + k)) by lia.
    change (fact (S (m + k))) with (S (m + k) * fact (m + k))%nat.
    rewrite <- H2. ring.
Qed.

(** ** [gcd] and [comb] *)

Lemma gcd_loop_spec fuel a b :
  0 <= a -> 0 <= b -> (Z.to_nat b < fuel)%nat ->
  gcd_loop fuel a b = Z.gcd a b.
Proof.
  revert a b. induction fuel as [|fuel IH]; intros a b Ha Hb Hf; [lia|].
  simpl. destruct (Z.eqb_spec b 0) as [->|Hne].
  - rewrite Z.gcd_0_r, Z.abs_eq; [reflexivity | exact Ha].
  - assert (Hm := Z.mod_pos_bound a b ltac:(lia)).
    rewrite IH by lia.
    rewrite (Z.gcd_comm b), Z.gcd_mod by exact Hne. apply Z.gcd_comm.
Qed.

Lemma gcd_spec a b :
  0 < gcd a b /\ (gcd a b | a) /\ (gcd a b | b).
Proof.
  unfold gcd. cbv zeta.
  rewrite gcd_loop_spec by lia.
  rewrite Z.gcd_abs_l, Z.gcd_abs_r.
  assert (Hn := Z.gcd_nonneg a b).
  destruct (Z.eqb_spec (Z.gcd a b) 0) as [E|E].
  - apply Z.gcd_eq_0 in E as [-> ->].
    split; [lia|]. split; apply Z.divide_0_r.
  - split; [lia|]. split; [apply Z.gcd_divide_l | apply Z.gcd_divide_r].
Qed.

(** Dividing numerator and denominator by [gcd] keeps [num = den * c]. *)
Lemma gcd_reduce num den c :
  0 < den -> num = den * c ->
  let g := gcd num den in
  0 < den / g /\ num / g = den / g * c.
Proof.
  intros Hden Hnum g.
  destruct (gcd_spec num den) as (Hg & _ & [d Hd]). fold g in Hg, Hd.
  assert (Hdg : den / g = d) by (rewrite Hd; apply Z.div_mul; lia).
  rewrite Hdg. split; [nia|].
  rewrite Hnum, Hd.
  replace (d * g * c) with (d * c * g) by ring.
  apply Z.div_mul. lia.
Qed.

Lemma comb_loop_spec fuel m k i num den :
  0 <= m -> 1 <= i -> i <= k + 1 -> fuel = Z.to_nat (k + 1 - i) ->
  0 < den ->
  num = den * Z.of_nat (choose (Z.to_nat (m + i - 1)) (Z.to_nat (i - 1))) ->
  let '(num', den') := comb_loop fuel (m + k) k i num den in
  0 < den' /\
  num' = den' * Z.of_nat (choose (Z.to_nat (m + k)) (Z.to_nat k)).
Proof.
  revert i num den. induction fuel as [|fuel IH]; intros i num den Hm Hi Hik Hf Hden Hnum.
  - assert (i = k + 1) as -> by lia. simpl.
    destruct (Z.leb_spec (k + 1) k); [lia|].
    split; [exact Hden|].
    rewrite Hnum. do 3 f_equal; lia.
  - simpl. destruct (Z.leb_spec i k) as [Hle|Hgt]; [|lia].
    assert (Habs : num * (m + k - (k - i))
                   = den * i * Z.of_nat (choose (Z.to_nat (m + (i + 1) - 1))
                                                (Z.to_nat (i + 1 - 1)))).
    { rewrite Hnum.
      assert (Ha := choose_absorb (Z.to_nat m) (Z.to_nat (i - 1))).
      replace (Z.to_nat (m + (i + 1) - 1))
        with (Z.to_nat m + S (Z.to_nat (i - 1)))%nat by lia.
      replace (Z.to_nat (i + 1 - 1)) with (S (Z.to_nat (i - 1))) by lia.
      replace (Z.to_nat (m + i - 1))
        with (Z.to_nat m + Z.to_nat (i - 1))%nat by lia.
      apply (f_equal Z.of_nat) in Ha. rewrite !Nat2Z.inj_mul in Ha.
      replace (Z.of_nat (S (Z.to_nat (i - 1)))) with i in Ha by lia.
      replace (Z.of_nat (Z.to_nat m + S (Z.to_nat (i - 1)))) with (m + i) in Ha by lia.
      replace (m + k - (k - i)) with (m + i) by ring.
      set (Cn := Z.of_nat (choose _ (S _))) in *.
      replace (den * i * Cn) with (den * (i * Cn)) by ring.
      rewrite Ha. ring. }
    assert (Hdi : 0 < den * i) by nia.
    destruct (gcd_reduce _ _ _ Hdi Habs) as [Hd' Hn'].
    apply IH; try lia; assumption.
Qed.

(** [comb] computes the binomial coefficient. *)
Lemma comb_choose n k :
  0 <= k <= n ->
  (comb n k == inject_Z (Z.of_nat (choose (Z.to_nat n) (Z.to_nat k))))%Q.
Proof.
  intros Hk. unfold comb.
  destruct (Z.ltb_spec k 0) as [?|_]; [lia|].
  destruct (Z.ltb_spec n k) as [?|_]; [lia|]. simpl orb.
  set (k' := Z.min k (n - k)).
  assert (Hk' : 0 <= k' <= n) by (unfold k'; lia).
  assert (Hsym : choose (Z.to_nat n) (Z.to_nat k') = choose (Z.to_nat n) (Z.to_nat k)).
  { unfold k'. destruct (Z.min_spec k (n - k)) as [[_ ->]|[_ ->]]; [reflexivity|].
    replace (Z.to_nat n) with (Z.to_nat k + Z.to_nat (n - k))%nat by lia.
    apply choose_sym. }
  assert (H := comb_loop_spec (Z.to_nat k') (n - k') k' 1 1 1
                 ltac:(lia) ltac:(lia) ltac:(lia) ltac:(f_equal; lia) ltac:(lia)
                 ltac:(rewrite choose_0_r; reflexivity)).
  replace (n - k' + k') with n in H by ring.
  destruct (comb_loop (Z.to_nat k') n k' 1 1 1) as [num den].
  destruct H as [Hden ->]. rewrite Hsym.
  rewrite inject_Z_mult. field.
  intros E. unfold Qeq in E. simpl in E. lia.
Qed.

Lemma negBinomPMF_choose n r p :
  1 <= r <= n ->
  (negBinomPMF n r p
   == inject_Z (Z.of_nat (choose (Z.to_nat (n - 1)) (Z.to_nat (r - 1))))
      * p ^ r * (1 - p) ^ (n - r))%Q.
Proof.
  intros Hr. unfold negBinomPMF.
  destruct (Z.ltb_spec n r) as [?|_]; [lia|].
  rewrite comb_choose by lia. reflexivity.
Qed.

(** ** The analytic engine *)

(** A thousand rounds of fuel are enough for the enumeration. *)
Lemma pmfLoop_terminates fuel r p acc n tail :
  r <= n -> (Z.to_nat (1000 - (n - r)) <= fuel)%nat ->
  is_Some (pmfLoop fuel r p acc n tail).
Proof.
  revert acc n tail. induction fuel as [|fuel IH]; intros acc n tail Hn Hf; simpl.
  - destruct (Z.ltb_spec (n - r) 1000) as [?|_]; [lia|].
    rewrite andb_false_r. eexists; reflexivity.
  - destruct (Qlt_bool maxTailProb tail && (n - r <? 1000)) eqn:G;
      [|eexists; reflexivity].
    apply IH; lia.
Qed.


Lemma hitsNeeded_pos (health damage : Q) :
  (0 < health)%Q -> (0 < damage)%Q -> 1 <= Qceiling (health / damage).
Proof.
  intros Hh Hd.
  assert (Hq : (0 < health / damage)%Q).
  { unfold Qdiv. apply Qmult_lt_0_compat; [exact Hh|].
    apply Qinv_lt_0_compat, Hd. }
  assert (Hc := Qle_ceiling (health / damage)).
  assert (Hlt : (inject_Z 0 < inject_Z (Qceiling (health / damage)))%Q)
    by (eapply Qlt_le_trans; [exact Hq | exact Hc]).
  rewrite <- Zlt_Qlt in Hlt. lia.
Qed.

Lemma Qle_bool_false a b : Qle_bool a b = false <-> (b < a)%Q.
Proof.
  rewrite <- not_true_iff_false, Qle_bool_iff.
  split; [apply Qnot_le_lt | apply Qlt_not_le].
Qed.




Lemma d20HitProb_nat_range a ac :
  (1 / 20 <= d20HitProb a ac true <= 19 / 20)%Q.
Proof.
  unfold d20HitProb. split; [apply Q.le_max_l|].
  apply Q.max_lub; [discriminate | apply Q.le_min_l].
Qed.

(** C9: with positive health and damage and a hit probability of exactly 0
    the analytic engine does not throw; it returns infinite hitsNeeded,
    mean, variance and stdev and an empty PMF.  The case only arises with
    critical rules disabled. *)
Theorem timeToKillDistribution_never_hits
    (h : Host) (attackModifier armorClass damage health : Q)
    (useCriticalMechanics : bool) :
  (0 < health)%Q -> (0 < damage)%Q ->
  (d20HitProb attackModifier armorClass useCriticalMechanics == 0)%Q ->
  useCriticalMechanics = false /\
  timeToKillDistribution h attackModifier armorClass damage health
    useCriticalMechanics
  = Some (Ok {| hitProbability :=
                  d20HitProb attackModifier armorClass useCriticalMechanics;
                hitsNeeded := PosInf;
                pmf := [];
                mean := PosInf;
                variance := PosInf;
                stdev := PosInf;
                roundsDistribution := [] |}).
Proof.
  intros Hh Hd Hp. split.
  - destruct useCriticalMechanics; [|reflexivity].
    destruct (d20HitProb_nat_range attackModifier armorClass) as [Hl _].
    rewrite Hp in Hl. exfalso. revert Hl. apply Qlt_not_le. reflexivity.
  - unfold timeToKillDistribution.
    rewrite (proj2 (Qle_bool_false damage 0) Hd), (proj2 (Qle_bool_false health 0) Hh).
    apply Qeq_bool_iff in Hp. rewrite Hp. reflexivity.
Qed.

Lemma timeToKillDistribution_never_hits_witness :
  false = false /\
  timeToKillDistribution zeroHost 0 30 8 25 false
  = Some (Ok {| hitProbability := d20HitProb 0 30 false;
                hitsNeeded := PosInf;
                pmf := [];
                mean := PosInf;
                variance := PosInf;
                stdev := PosInf;
                roundsDistribution := [] |}).
Proof.
  apply (timeToKillDistribution_never_hits zeroHost 0 30 8 25 false);
    reflexivity.
Defined.

(** ** From attack counts to the empirical PMF *)

Lemma fold_left_add (g : Z -> Z) l t0 :
  fold_left (fun t i => t + g i) l t0 = t0 + sumZ (map g l).
Proof.
  revert t0. induction l as [|i l IH]; intros t0; simpl; [lia|].
  rewrite IH. lia.
Qed.

Lemma totalCountLoop_sum maxA attackCounts :
  totalCountLoop maxA attackCounts
  = sumZ (map (countedAt attackCounts) (seqZ 1 maxA)).
Proof.
  unfold totalCountLoop. rewrite <- (Z.add_0_l (sumZ _)), <- fold_left_add.
  generalize 0 at 2 3. generalize (seqZ 1 maxA).
  induction l as [|i l IH]; intros t; simpl; [reflexivity|].
  rewrite <- IH. f_equal. unfold countedAt.
  destruct (attackCounts !! Z.to_nat i) as [c|]; [|lia].
  destruct (0 <? c); lia.
Qed.

Lemma pmfStep_pmf attackCounts totalCount acc i :
  fst (fst (pmfStep attackCounts totalCount acc i))
  = fst (fst acc) ++ pointAt attackCounts totalCount i.
Proof.
  destruct acc as [[pmf0 m] v]. unfold pmfStep, pointAt, countedAt. simpl.
  destruct (attackCounts !! Z.to_nat i) as [c|]; simpl;
    [|rewrite app_nil_r; reflexivity].
  destruct (0 <? c) eqn:E; simpl; [rewrite E; reflexivity|].
  rewrite app_nil_r. reflexivity.
Qed.

Lemma empiricalLoop_pmf maxA attackCounts totalCount :
  fst (fst (empiricalLoop maxA attackCounts totalCount))
  = flat_map (pointAt attackCounts totalCount) (seqZ 1 maxA).
Proof.
  unfold empiricalLoop.
  change (flat_map (pointAt attackCounts totalCount) (seqZ 1 maxA))
    with (fst (fst (@nil TTKPoint, 0%Q, 0%Q))
          ++ flat_map (pointAt attackCounts totalCount) (seqZ 1 maxA)).
  generalize (@nil TTKPoint, 0%Q, 0%Q). generalize (seqZ 1 maxA).
  induction l as [|i l IH]; intros acc; simpl; [rewrite app_nil_r; reflexivity|].
  rewrite IH, pmfStep_pmf, <- app_assoc. reflexivity.
Qed.

Lemma countedAt_nonneg attackCounts i : 0 <= countedAt attackCounts i.
Proof.
  unfold countedAt. destruct (attackCounts !! Z.to_nat i) as [c|]; [|lia].
  destruct (Z.ltb_spec 0 c); lia.
Qed.

Lemma sumZ_nonneg (g : Z -> Z) l : (forall i, 0 <= g i) -> 0 <= sumZ (map g l).
Proof.
  intros Hg. induction l as [|i l IH]; simpl; [lia|]. specialize (Hg i). lia.
Qed.

Lemma sumQ_app l1 l2 : (sumQ (l1 ++ l2) == sumQ l1 + sumQ l2)%Q.
Proof.
  induction l1 as [|q l1 IH]; simpl; [ring|]. rewrite IH. ring.
Qed.

(** The masses of the points add up to the counted total over [totalCount]. *)
Lemma pointAt_mass attackCounts totalCount l :
  (sumQ (map prob (flat_map (pointAt attackCounts totalCount) l))
   == inject_Z (sumZ (map (countedAt attackCounts) l)) / inject_Z totalCount)%Q.
Proof.
  induction l as [|i l IH]; simpl.
  - unfold Qdiv. ring.
  - rewrite map_app, sumQ_app, IH, inject_Z_plus. unfold pointAt.
    destruct (Z.ltb_spec 0 (countedAt attackCounts i)) as [Hc|Hc]; simpl.
    + unfold Qdiv. ring.
    + assert (countedAt attackCounts i = 0) as ->
        by (pose proof (countedAt_nonneg attackCounts i); lia).
      unfold Qdiv. ring.
Qed.

Lemma pointAt_none attackCounts totalCount l :
  sumZ (map (countedAt attackCounts) l) = 0 ->
  flat_map (pointAt attackCounts totalCount) l = [].
Proof.
  induction l as [|i l IH]; simpl; [reflexivity|]. intros Hs.
  pose proof (countedAt_nonneg attackCounts i) as Hi.
  pose proof (sumZ_nonneg (countedAt attackCounts) l (countedAt_nonneg attackCounts)) as Hl.
  rewrite IH by lia. unfold pointAt.
  destruct (Z.ltb_spec 0 (countedAt attackCounts i)); [lia | reflexivity].
Qed.

(** The PMF built from any [attackCounts] is empty or has total mass 1. *)
Lemma empirical_pmf_mass maxA attackCounts :
  let totalCount := totalCountLoop maxA attackCounts in
  let pmf0 := fst (fst (empiricalLoop maxA attackCounts totalCount)) in
  (totalCount = 0 /\ pmf0 = []) \/
  (0 < totalCount /\ (sumQ (map prob pmf0) == 1)%Q).
Proof.
  intros totalCount pmf0. unfold pmf0. rewrite empiricalLoop_pmf.
  assert (Ht : totalCount = sumZ (map (countedAt attackCounts) (seqZ 1 maxA)))
    by apply totalCountLoop_sum.
  pose proof (sumZ_nonneg (countedAt attackCounts) (seqZ 1 maxA)
                (countedAt_nonneg attackCounts)) as Hn.
  destruct (Z.eq_dec totalCount 0) as [E|E].
  - left. split; [exact E|]. apply pointAt_none. lia.
  - right. split; [lia|].
    rewrite pointAt_mass, <- Ht. field.
    intros H0. unfold Qeq in H0. simpl in H0. lia.
Qed.

Lemma pmf_ascending attackCounts totalCount (n : nat) m :
  ascendingFrom (m - 1)
    (flat_map (pointAt attackCounts totalCount) (seqZ m (Z.of_nat n))).
Proof.
  revert m. induction n as [|n IH]; intros m; [exact I|].
  rewrite seqZ_cons by lia. simpl flat_map.
  replace (Z.pred (Z.of_nat (S n))) with (Z.of_nat n) by lia.
  specialize (IH (Z.succ m)). replace (Z.succ m - 1) with m in IH by lia.
  unfold pointAt at 1. destruct (0 <? countedAt attackCounts m); simpl.
  - split; [lia | exact IH].
  - destruct (flat_map _ _) as [|pt rest]; [exact I|].
    simpl in *. split; [lia | tauto].
Qed.

(** ** The median and percentile scan *)

Lemma markersOrdered_step t1 t2 cum cum' m1 m2 b a :
  (t1 <= t2)%Q -> 0 <= b < a ->
  markersOrdered t2 cum m1 m2 b ->
  markersOrdered t2 cum'
    (if (m1 =? 1) && Qle_bool t1 cum' then a else m1)
    (if (m2 =? 1) && Qle_bool t2 cum' then a else m2) a.
Proof.
  intros Ht Hb (H1 & H2 & H).
  assert (Himp : Qle_bool t2 cum' = true -> Qle_bool t1 cum' = true).
  { rewrite !Qle_bool_iff. intros H'. eapply Qle_trans; [exact Ht | exact H']. }
  unfold markersOrdered.
  destruct (Qle_bool t2 cum') eqn:R2; [rewrite (Himp eq_refl)|];
    destruct (Z.eqb_spec m1 1) as [E1|E1], (Z.eqb_spec m2 1) as [E2|E2];
    try destruct (Qle_bool t1 cum'); cbn [andb];
    (split; [lia|]); (split; [lia|]);
    destruct H as [[? _]|(? & ? & ?)]; try lia;
    first [ right; lia
          | left; split; [lia|]; first [left; reflexivity | right; lia] ].
Qed.

Lemma scanOrdered_step b st point :
  0 <= b < attacks point ->
  scanOrdered b st -> scanOrdered (attacks point) (scanStep st point).
Proof.
  intros Hb (H1 & H2 & H3 & H4). unfold scanOrdered, scanStep.
  cbn [cumulativeProb scanMedian scanP25 scanP75 scanP90 scanP95].
  split; [|split; [|split]].
  - apply (markersOrdered_step (25 # 100) (5 # 10) (cumulativeProb st) _ _ _ b);
      [discriminate | exact Hb | exact H1].
  - apply (markersOrdered_step (5 # 10) (75 # 100) (cumulativeProb st) _ _ _ b);
      [discriminate | exact Hb | exact H2].
  - apply (markersOrdered_step (75 # 100) (90 # 100) (cumulativeProb st) _ _ _ b);
      [discriminate | exact Hb | exact H3].
  - apply (markersOrdered_step (90 # 100) (95 # 100) (cumulativeProb st) _ _ _ b);
      [discriminate | exact Hb | exact H4].
Qed.

Lemma scan_cumulative pmf0 st :
  (cumulativeProb (fold_left scanStep pmf0 st)
   == cumulativeProb st + sumQ (map prob pmf0))%Q.
Proof.
  revert st. induction pmf0 as [|pt pmf0 IH]; intros st; simpl; [ring|].
  rewrite IH. simpl. ring.
Qed.

Lemma scan_ordered pmf0 b st :
  0 <= b -> ascendingFrom b pmf0 -> scanOrdered b st ->
  exists b', scanOrdered b' (fold_left scanStep pmf0 st).
Proof.
  revert b st. induction pmf0 as [|pt pmf0 IH]; intros b st Hb Hasc Hst; simpl.
  - exists b. exact Hst.
  - destruct Hasc as [Hlt Hasc].
    apply (IH (attacks pt)); [lia | exact Hasc |].
    apply (scanOrdered_step b); [lia | exact Hst].
Qed.

Lemma scanInit_ordered : scanOrdered 0 scanInit.
Proof.
  repeat split; simpl; try lia; left; split; try reflexivity; right; reflexivity.
Qed.

Lemma markersOrdered_le t2 cum m1 m2 b :
  markersOrdered t2 cum m1 m2 b -> Qle_bool t2 cum = true -> m1 <= m2.
Proof.
  intros (_ & _ & [[-> [Hf| ->]]|(_ & _ & Hle)]) Hr; [congruence | lia | exact Hle].
Qed.

(** On a PMF with strictly increasing positive attack counts that is
    empty or carries a mass of at least 0.95, the scan leaves the five
    markers in order. *)
Lemma percentileScan_monotone pmf0 :
  ascendingFrom 0 pmf0 ->
  pmf0 = [] \/ (95 # 100 <= sumQ (map prob pmf0))%Q ->
  let st := percentileScan pmf0 in
  scanP25 st <= scanMedian st /\ scanMedian st <= scanP75 st /\
  scanP75 st <= scanP90 st /\ scanP90 st <= scanP95 st.
Proof.
  intros Hasc [->|Hmass] st; [cbv; repeat split; discriminate|].
  destruct (scan_ordered pmf0 0 scanInit ltac:(lia) Hasc scanInit_ordered)
    as (b' & Ha & Hb & Hc & Hd).
  fold (percentileScan pmf0) in Ha, Hb, Hc, Hd. fold st in Ha, Hb, Hc, Hd.
  assert (Hcum : (95 # 100 <= cumulativeProb st)%Q).
  { unfold st, percentileScan. rewrite scan_cumulative. simpl.
    rewrite Qplus_0_l. exact Hmass. }
  assert (Hreach : forall t, (t <= 95 # 100)%Q -> Qle_bool t (cumulativeProb st) = true).
  { intros t Ht. apply Qle_bool_iff. eapply Qle_trans; [exact Ht | exact Hcum]. }
  split; [|split; [|split]].
  - apply (markersOrdered_le _ _ _ _ _ Ha), Hreach. discriminate.
  - apply (markersOrdered_le _ _ _ _ _ Hb), Hreach. discriminate.
  - apply (markersOrdered_le _ _ _ _ _ Hc), Hreach. discriminate.
  - apply (markersOrdered_le _ _ _ _ _ Hd), Hreach. discriminate.
Qed.

(** ** Trials *)

Section Trials.
Variable h : Host.
Variables attackModifier armorClass : Q.
Variable damage : DamageResult.t.
Variable health : Q.
Variable useCriticalMechanics : bool.
Variable maxA : Z.

(** The attack counter never decreases and never passes the cap. *)
Lemma attackLoop_range fuel remainingHealth attacks calls :
  attacks <= snd (fst (attackLoop h attackModifier armorClass damage useCriticalMechanics maxA
                   fuel remainingHealth attacks calls))
          <= Z.max attacks maxA.
Proof.
  revert remainingHealth attacks calls.
  induction fuel as [|fuel IH]; intros rh a calls; simpl;
    destruct (Qlt_bool 0 rh && (a <? maxA)) eqn:G; simpl; try lia.
  apply andb_true_iff in G as [_ Ha]. apply Z.ltb_lt in Ha.
  unfold bind. destruct (attackOnce _ _ _ _ _ _ _) as [rh' calls'].
  specialize (IH rh' (a + 1) calls'). lia.
Qed.

(** With fuel for every attack below the cap the loop leaves through
    its guard: the target is down or the cap is reached. *)
Lemma attackLoop_exits fuel remainingHealth attacks calls :
  (Z.to_nat (maxA - attacks) <= fuel)%nat ->
  let out := fst (attackLoop h attackModifier armorClass damage useCriticalMechanics maxA
                   fuel remainingHealth attacks calls) in
  (fst out <= 0)%Q \/ maxA <= snd out.
Proof.
  revert remainingHealth attacks calls.
  induction fuel as [|fuel IH]; intros rh a calls Hf; simpl;
    destruct (Qlt_bool 0 rh && (a <? maxA)) eqn:G; simpl.
  - apply andb_true_iff in G as [_ Ha]. apply Z.ltb_lt in Ha. lia.
  - apply andb_false_iff in G as [G|G];
      [left; apply Qlt_bool_false, G | right; apply Z.ltb_ge, G].
  - unfold bind. destruct (attackOnce _ _ _ _ _ _ _) as [rh' calls'].
    apply IH. lia.
  - apply andb_false_iff in G as [G|G];
      [left; apply Qlt_bool_false, G | right; apply Z.ltb_ge, G].
Qed.

(** A trial that stops below the cap has brought the target down. *)
Lemma trial_below_cap_killed calls :
  let out := fst (trial h attackModifier armorClass damage health
                    useCriticalMechanics maxA calls) in
  snd out < maxA -> (fst out <= 0)%Q.
Proof.
  intros out Hlt.
  destruct (attackLoop_exits (Z.to_nat maxA) health 0 calls ltac:(lia))
    as [Hk|Hcap]; [exact Hk|].
  unfold out, trial in Hlt. lia.
Qed.

Hypothesis health_pos : (0 < health)%Q.
Hypothesis maxA_pos : 0 < maxA.

(** Every trial makes at least one attack and at most [maxA]. *)
Lemma trial_range calls : 1 <= snd (fst (trial h attackModifier armorClass damage health
                    useCriticalMechanics maxA calls)) <= maxA.
Proof.
  unfold trial.
  destruct (Z.to_nat maxA) as [|fuel] eqn:Hfuel; [lia|]. simpl.
  rewrite (proj2 (Qlt_bool_iff 0 health) health_pos).
  rewrite (proj2 (Z.ltb_lt 0 maxA) maxA_pos). simpl.
  unfold bind. destruct (attackOnce _ _ _ _ _ _ _) as [rh' calls'].
  pose proof (attackLoop_range fuel rh' (0 + 1) calls') as Hr.
  lia.
Qed.

Lemma trialOutcomes_range sims calls :
  Forall (fun a => 1 <= a <= maxA) (fst (trialOutcomes h attackModifier armorClass damage health
              useCriticalMechanics maxA sims calls)).
Proof.
  revert calls. induction sims as [|sims IH]; intros calls; simpl;
    [constructor|].
  unfold bind, ret. pose proof (trial_range calls) as Ht.
  destruct (trial _ _ _ _ _ _ _ calls) as [out calls1].
  specialize (IH calls1).
  destruct (trialOutcomes _ _ _ _ _ _ _ sims calls1) as [outs calls2].
  simpl in *. constructor; assumption.
Qed.

(** The simulation records the outcomes of its trials one by one. *)
Lemma simLoop_outcomes sims attackCounts calls :
  fst (simLoop h attackModifier armorClass damage health useCriticalMechanics
         maxA sims attackCounts calls)
  = fold_left (record maxA) (fst (trialOutcomes h attackModifier armorClass damage health
              useCriticalMechanics maxA sims calls)) attackCounts.
Proof.
  revert attackCounts calls.
  induction sims as [|sims IH]; intros counts calls; simpl; [reflexivity|].
  unfold bind, ret.
  destruct (trial _ _ _ _ _ _ _ calls) as [[rh a] calls1].
  specialize (IH (record maxA counts a) calls1). rewrite IH.
  destruct (trialOutcomes _ _ _ _ _ _ _ sims calls1) as [outs calls2].
  reflexivity.
Qed.
End Trials.

(** ** Counting *)

Lemma frequency_cons a outs i :
  frequency (a :: outs) i = (if a =? i then 1 else 0) + frequency outs i.
Proof.
  unfold frequency. rewrite filter_cons.
  destruct (decide (a = i)) as [->|Hne].
  - rewrite Z.eqb_refl. simpl length. lia.
  - destruct (Z.eqb_spec a i); [contradiction | lia].
Qed.

Lemma retainedCount_cons maxA a outs :
  retainedCount maxA (a :: outs)
  = (if a <? maxA then 1 else 0) + retainedCount maxA outs.
Proof.
  unfold retainedCount. rewrite filter_cons.
  destruct (decide (a < maxA)) as [Hlt|Hge].
  - rewrite (proj2 (Z.ltb_lt a maxA) Hlt). simpl length. lia.
  - destruct (Z.ltb_spec a maxA); [contradiction | lia].
Qed.

Lemma frequency_nonneg outs i : 0 <= frequency outs i.
Proof. unfold frequency. lia. Qed.

Lemma record_lookup maxA attackCounts a (j : nat) :
  0 <= a ->
  record maxA attackCounts a !! j
  = (fun c => c + (if (a <? maxA) && (a =? Z.of_nat j) then 1 else 0))
      <$> attackCounts !! j.
Proof.
  intros Ha. unfold record.
  destruct (a <? maxA); simpl.
  - destruct (Z.eqb_spec a (Z.of_nat j)) as [E|E].
    + replace (Z.to_nat a) with j by lia.
      rewrite list_lookup_alter_eq.
      destruct (attackCounts !! j); simpl; f_equal; lia.
    + rewrite list_lookup_alter_ne by lia.
      destruct (attackCounts !! j); simpl; f_equal; lia.
  - destruct (attackCounts !! j); simpl; f_equal; lia.
Qed.

(** After recording, index [j] holds its old value plus the number of
    counted trials that stopped at [j]. *)
Lemma record_all_lookup maxA outs attackCounts (j : nat) :
  Forall (fun a => 0 <= a) outs ->
  fold_left (record maxA) outs attackCounts !! j
  = (fun c => c + (if Z.of_nat j <? maxA then frequency outs (Z.of_nat j) else 0))
      <$> attackCounts !! j.
Proof.
  intros Hpos. revert attackCounts.
  induction Hpos as [|a outs Ha Hpos IH]; intros counts; simpl.
  - destruct (counts !! j); simpl; f_equal. unfold frequency. simpl.
    destruct (Z.of_nat j <? maxA); lia.
  - rewrite IH, record_lookup by exact Ha.
    destruct (counts !! j) as [c|]; simpl; [|reflexivity]. f_equal.
    rewrite frequency_cons.
    destruct (Z.eqb_spec a (Z.of_nat j)) as [->|Hne].
    + destruct (Z.of_nat j <? maxA); simpl; lia.
    + rewrite andb_false_r. destruct (Z.of_nat j <? maxA); lia.
Qed.

Lemma countedAt_recorded maxA outs i :
  Forall (fun a => 0 <= a) outs -> 0 <= i <= maxA ->
  countedAt (fold_left (record maxA) outs (replicate (Z.to_nat (maxA + 1)) 0)) i
  = if i <? maxA then frequency outs i else 0.
Proof.
  intros Hpos Hi. unfold countedAt.
  rewrite record_all_lookup by exact Hpos.
  rewrite lookup_replicate_2 by lia. simpl.
  rewrite Z2Nat.id by lia.
  pose proof (frequency_nonneg outs i).
  destruct (i <? maxA); simpl; [|reflexivity].
  rewrite Z.add_0_l.
  destruct (Z.ltb_spec 0 (frequency outs i)); lia.
Qed.

Lemma sumZ_indicator a m (n : nat) :
  sumZ (map (fun i => if a =? i then 1 else 0) (seqZ m (Z.of_nat n)))
  = if (m <=? a) && (a <? m + Z.of_nat n) then 1 else 0.
Proof.
  revert m. induction n as [|n IH]; intros m.
  - simpl. destruct (Z.leb_spec m a), (Z.ltb_spec a (m + Z.of_nat 0)); simpl; lia.
  - rewrite seqZ_cons by lia. simpl map. simpl sumZ.
    replace (Z.pred (Z.of_nat (S n))) with (Z.of_nat n) by lia.
    rewrite IH.
    destruct (Z.eqb_spec a m), (Z.leb_spec m a), (Z.leb_spec (Z.succ m) a),
      (Z.ltb_spec a (Z.succ m + Z.of_nat n)), (Z.ltb_spec a (m + Z.of_nat (S n)));
      simpl; lia.
Qed.

Lemma sumZ_map_add (f g : Z -> Z) l :
  sumZ (map (fun i => f i + g i) l) = sumZ (map f l) + sumZ (map g l).
Proof. induction l as [|i l IH]; simpl; lia. Qed.

Lemma sumZ_map_zero (l : list Z) : sumZ (map (fun _ => 0) l) = 0.
Proof. induction l as [|i l IH]; simpl; lia. Qed.

Lemma sumZ_map_ext (f g : Z -> Z) l :
  (forall i, In i l -> f i = g i) -> sumZ (map f l) = sumZ (map g l).
Proof.
  induction l as [|i l IH]; intros H; simpl; [reflexivity|].
  rewrite (H i), IH; [reflexivity | intros j Hj; apply H; right; exact Hj
                     | left; reflexivity].
Qed.

(** Summed over the indices 1..maxA, the recorded counts give the
    number of counted trials. *)
Lemma recorded_total maxA outs :
  0 <= maxA -> Forall (fun a => 1 <= a <= maxA) outs ->
  sumZ (map (fun i => if i <? maxA then frequency outs i else 0) (seqZ 1 maxA))
  = retainedCount maxA outs.
Proof.
  intros HmaxA Hr. induction Hr as [|a outs Ha Hr IH].
  - unfold retainedCount. simpl.
    transitivity (sumZ (map (fun _ => 0) (seqZ 1 maxA))); [|apply sumZ_map_zero].
    apply sumZ_map_ext. intros i _. destruct (i <? maxA); reflexivity.
  - rewrite retainedCount_cons, <- IH.
    pose proof (sumZ_indicator a 1 (Z.to_nat maxA)) as Hind.
    rewrite Z2Nat.id in Hind by exact HmaxA.
    transitivity
      (sumZ (map (fun i => (if a <? maxA then if a =? i then 1 else 0 else 0)
                           + (if i <? maxA then frequency outs i else 0))
               (seqZ 1 maxA))).
    + apply sumZ_map_ext. intros i _. rewrite frequency_cons.
      destruct (Z.ltb_spec a maxA), (Z.ltb_spec i maxA), (Z.eqb_spec a i); lia.
    + rewrite sumZ_map_add. f_equal.
      destruct (a <? maxA).
      * rewrite Hind.
        destruct (Z.leb_spec 1 a), (Z.ltb_spec a (1 + maxA)); simpl; lia.
      * apply sumZ_map_zero.
Qed.

(** ** Results of the Monte Carlo engine *)

Lemma summarize_fields h am ac damage health crit maxA attackCounts :
  let res := summarize h am ac damage health crit maxA attackCounts in
  let pmf0 := fst (fst (empiricalLoop maxA attackCounts
                          (totalCountLoop maxA attackCounts))) in
  pmf (stats res) = pmf0 /\
  median res = scanMedian (percentileScan pmf0) /\
  p25 (percentiles res) = scanP25 (percentileScan pmf0) /\
  p75 (percentiles res) = scanP75 (percentileScan pmf0) /\
  p90 (percentiles res) = scanP90 (percentileScan pmf0) /\
  p95 (percentiles res) = scanP95 (percentileScan pmf0).
Proof.
  unfold summarize.
  destruct (empiricalLoop maxA attackCounts (totalCountLoop maxA attackCounts))
    as [[pmf0 m] v]. simpl fst.
  destruct (modeLoop pmf0) as [md mp]. simpl. repeat split.
Qed.

Lemma timeToKillWithCriticals_returns h am ac damage health crit i0 :
  (0 < health)%Q ->
  fst (timeToKillWithCriticals h am ac damage health crit i0)
  = Ok (summarize h am ac damage health crit maxAttacks
          (fst (simLoop h am ac damage health crit maxAttacks
                  (Z.to_nat numSimulations)
                  (replicate (Z.to_nat (maxAttacks + 1)) 0) i0))).
Proof.
  intros Hh. unfold timeToKillWithCriticals.
  rewrite (proj2 (Qle_bool_false health 0) Hh). unfold bind, ret.
  destruct (simLoop _ _ _ _ _ _ _ _ _ _) as [counts i1]. reflexivity.
Qed.

Lemma In_seqZ i m n : In i (seqZ m n) <-> m <= i < m + n.
Proof. rewrite <- list_elem_of_In. apply elem_of_seqZ. Qed.

(** What the counting loops read from the counts left by a simulation. *)
Lemma simulation_counts h am ac damage health crit maxA sims calls :
  (0 < health)%Q -> 0 < maxA ->
  let outcomes := fst (trialOutcomes h am ac damage health crit maxA sims calls) in
  let attackCounts :=
    fst (simLoop h am ac damage health crit maxA sims
           (replicate (Z.to_nat (maxA + 1)) 0) calls) in
  (forall i, 1 <= i <= maxA ->
     countedAt attackCounts i = if i <? maxA then frequency outcomes i else 0) /\
  totalCountLoop maxA attackCounts = retainedCount maxA outcomes.
Proof.
  intros Hh HmaxA outcomes attackCounts.
  pose proof (trialOutcomes_range h am ac damage health crit maxA Hh HmaxA sims calls)
    as Hrange. fold outcomes in Hrange.
  assert (Hpos : Forall (fun a => 0 <= a) outcomes)
    by (eapply Forall_impl; [exact Hrange | simpl; intros; lia]).
  assert (Hcount : forall i, 1 <= i <= maxA ->
            countedAt attackCounts i = if i <? maxA then frequency outcomes i else 0).
  { intros i Hi. unfold attackCounts. rewrite simLoop_outcomes.
    apply countedAt_recorded; [exact Hpos | lia]. }
  split; [exact Hcount|].
  rewrite totalCountLoop_sum, <- recorded_total by (lia || exact Hrange).
  apply sumZ_map_ext. intros i Hi. apply In_seqZ in Hi. apply Hcount. lia.
Qed.

(** C4: for positive health the empirical PMF holds, for every attack
    count at which some counted trial stopped, the number of such trials
    divided by the number of counted trials (not by the nominal 100000);
    its probabilities add up to 1 whenever a trial was counted. *)
Theorem timeToKillWithCriticals_pmf_normalized
    (h : Host) (attackModifier armorClass : Q) (damage : DamageResult.t)
    (health : Q) (useCriticalMechanics : bool) (calls : N) :
  (0 < health)%Q ->
  let outcomes :=
    fst (trialOutcomes h attackModifier armorClass damage health
           useCriticalMechanics maxAttacks (Z.to_nat numSimulations) calls) in
  let retained := retainedCount maxAttacks outcomes in
  exists res,
    fst (timeToKillWithCriticals h attackModifier armorClass damage health
           useCriticalMechanics calls) = Ok res /\
    (forall pt, In pt (pmf (stats res)) ->
       attacks pt < maxAttacks /\ 0 < frequency outcomes (attacks pt) /\
       (prob pt
        == inject_Z (frequency outcomes (attacks pt)) / inject_Z retained)%Q) /\
    (forall i, i < maxAttacks -> 0 < frequency outcomes i ->
       exists pt, In pt (pmf (stats res)) /\ attacks pt = i) /\
    (0 < retained -> (sumQ (map prob (pmf (stats res))) == 1)%Q).
Proof.
  intros Hh outcomes retained.
  eexists. split; [apply timeToKillWithCriticals_returns, Hh|].
  set (counts := fst (simLoop _ _ _ _ _ _ _ _ _ _)).
  destruct (summarize_fields h attackModifier armorClass damage health
              useCriticalMechanics maxAttacks counts) as (-> & _).
  destruct (simulation_counts h attackModifier armorClass damage health
              useCriticalMechanics maxAttacks (Z.to_nat numSimulations) calls
              Hh ltac:(reflexivity)) as [Hcount Htotal].
  fold counts in Hcount, Htotal. fold outcomes in Hcount, Htotal.
  fold retained in Htotal.
  split; [|split].
  - rewrite empiricalLoop_pmf, Htotal. intros pt Hpt.
    apply in_flat_map in Hpt as (i & Hi & Hpt). apply In_seqZ in Hi.
    unfold pointAt in Hpt.
    destruct (Z.ltb_spec 0 (countedAt counts i)) as [Hc|_]; [|destruct Hpt].
    destruct Hpt as [<-|[]]. simpl.
    rewrite Hcount in * by lia.
    destruct (Z.ltb_spec i maxAttacks); [|lia].
    split; [assumption|]. split; [assumption | reflexivity].
  - intros i Hi Hfreq. rewrite empiricalLoop_pmf.
    assert (Hi1 : 1 <= i).
    { pose proof (trialOutcomes_range h attackModifier armorClass damage health
                    useCriticalMechanics maxAttacks Hh ltac:(reflexivity)
                    (Z.to_nat numSimulations) calls) as Hrange.
      fold outcomes in Hrange. rewrite Forall_forall in Hrange.
      unfold frequency in Hfreq.
      destruct (filter (fun a => a = i) outcomes) as [|a l] eqn:Hf;
        [simpl in Hfreq; lia|].
      assert (Ha : a ∈ filter (fun a => a = i) outcomes)
        by (rewrite Hf; left).
      apply list_elem_of_filter in Ha as [-> Ha].
      apply Hrange in Ha. lia. }
    eexists. split.
    + apply in_flat_map. exists i. split; [apply In_seqZ; lia|].
      unfold pointAt. rewrite Hcount by lia.
      rewrite (proj2 (Z.ltb_lt i maxAttacks) Hi).
      rewrite (proj2 (Z.ltb_lt 0 _) Hfreq). left. reflexivity.
    + reflexivity.
  - intros Hret.
    destruct (empirical_pmf_mass maxAttacks counts) as [[E _]|[_ E]];
      [lia | exact E].
Qed.

Lemma timeToKillWithCriticals_pmf_normalized_witness :
  let outcomes :=
    fst (trialOutcomes firstMissHost 5 15 (parseDamageInput "1d8+3") 25 true
           maxAttacks (Z.to_nat numSimulations) 0%N) in
  let retained := retainedCount maxAttacks outcomes in
  exists res,
    fst (timeToKillWithCriticals firstMissHost 5 15 (parseDamageInput "1d8+3") 25
           true 0%N) = Ok res /\
    (forall pt, In pt (pmf (stats res)) ->
       attacks pt < maxAttacks /\ 0 < frequency outcomes (attacks pt) /\
       (prob pt
        == inject_Z (frequency outcomes (attacks pt)) / inject_Z retained)%Q) /\
    (forall i, i < maxAttacks -> 0 < frequency outcomes i ->
       exists pt, In pt (pmf (stats res)) /\ attacks pt = i) /\
    (0 < retained -> (sumQ (map prob (pmf (stats res))) == 1)%Q).
Proof.
  apply (timeToKillWithCriticals_pmf_normalized firstMissHost 5 15
           (parseDamageInput "1d8+3") 25 true 0%N).
  reflexivity.
Defined.

(** C6: the percentile markers of every result of the Monte Carlo engine
    are in order, p25 <= median <= p75 <= p90 <= p95. *)
Theorem timeToKillWithCriticals_percentiles_monotone
    (h : Host) (attackModifier armorClass : Q) (damage : DamageResult.t)
    (health : Q) (useCriticalMechanics : bool) (calls : N) :
  (0 < health)%Q ->
  exists res,
    fst (timeToKillWithCriticals h attackModifier armorClass damage health
           useCriticalMechanics calls) = Ok res /\
    p25 (percentiles res) <= median res /\
    median res <= p75 (percentiles res) /\
    p75 (percentiles res) <= p90 (percentiles res) /\
    p90 (percentiles res) <= p95 (percentiles res).
Proof.
  intros Hh. eexists. split; [apply timeToKillWithCriticals_returns, Hh|].
  set (counts := fst (simLoop _ _ _ _ _ _ _ _ _ _)).
  destruct (summarize_fields h attackModifier armorClass damage health
              useCriticalMechanics maxAttacks counts)
    as (_ & -> & -> & -> & -> & ->).
  apply percentileScan_monotone.
  - rewrite empiricalLoop_pmf.
    apply (pmf_ascending counts _ (Z.to_nat maxAttacks) 1).
  - destruct (empirical_pmf_mass maxAttacks counts) as [[_ E]|[_ E]];
      [left; exact E | right; rewrite E; discriminate].
Qed.

Lemma timeToKillWithCriticals_percentiles_monotone_witness :
  exists res,
    fst (timeToKillWithCriticals firstMissHost 5 15 (parseDamageInput "1d8+3") 25
           true 0%N) = Ok res /\
    p25 (percentiles res) <= median res /\
    median res <= p75 (percentiles res) /\
    p75 (percentiles res) <= p90 (percentiles res) /\
    p90 (percentiles res) <= p95 (percentiles res).
Proof.
  apply (timeToKillWithCriticals_percentiles_monotone firstMissHost 5 15
           (parseDamageInput "1d8+3") 25 true 0%N).
  reflexivity.
Defined.

(** ** Evaluations of the Monte Carlo engine *)

(** C3: a trial that brings the target down with its 200th attack is not
    counted.  With one hit point, fixed damage 1, armor class 20 and a
    d20 that shows 1 for 199 rolls and 20 afterwards, the first trial ends
    with no health left after exactly 200 attacks, recording it changes
    nothing, and only 99999 of the 100000 trials, which all brought the
    target down within the cap, are in the distribution. *)
Theorem trial_killing_on_last_attack_not_counted :
  let damage := parseDamageInput "1" in
  trial lateHitHost 0 20 damage 1 false maxAttacks 0%N = (0%Q, 200, 200%N) /\
  (forall attackCounts, record maxAttacks attackCounts 200 = attackCounts) /\
  (let outcomes :=
     fst (trialOutcomes lateHitHost 0 20 damage 1 false maxAttacks
            (Z.to_nat numSimulations) 0%N) in
   frequency outcomes 200 = 1 /\
   retainedCount maxAttacks outcomes = 99999) /\
  exists res,
    fst (timeToKillWithCriticals lateHitHost 0 20 damage 1 false 0%N) = Ok res /\
    pmf (stats res) = [{| attacks := 1; prob := 99999 # 99999 |}].
Proof.
  split; [vm_compute; reflexivity|].
  split; [intros attackCounts; reflexivity|].
  split; [split; vm_compute; reflexivity|].
  eexists. split; [apply timeToKillWithCriticals_returns; reflexivity|].
  vm_compute. reflexivity.
Qed.

(** C5: the markers are not the first attack count at which the
    cumulative mass reaches their threshold when that count is 1 and the
    PMF goes on.  With 99999 of 100000 trials over after one attack and
    one after two, every threshold is first reached at attack count 1,
    yet the median and the four percentile markers are all 2. *)
Theorem percentile_markers_pass_over_attack_count_1 :
  exists res,
    fst (timeToKillWithCriticals firstMissHost 0 10 (parseDamageInput "1") 1
           false 0%N) = Ok res /\
    pmf (stats res) = [{| attacks := 1; prob := 99999 # 100000 |};
                       {| attacks := 2; prob := 1 # 100000 |}] /\
    firstReaching (5 # 10) 0 (pmf (stats res)) = Some 1 /\
    firstReaching (25 # 100) 0 (pmf (stats res)) = Some 1 /\
    firstReaching (75 # 100) 0 (pmf (stats res)) = Some 1 /\
    firstReaching (90 # 100) 0 (pmf (stats res)) = Some 1 /\
    firstReaching (95 # 100) 0 (pmf (stats res)) = Some 1 /\
    median res = 2 /\
    percentiles res = {| p25 := 2; p75 := 2; p90 := 2; p95 := 2 |}.
Proof.
  eexists. split; [apply timeToKillWithCriticals_returns; reflexivity|].
  vm_compute. repeat split; reflexivity.
Qed.

(** ** The damage parser *)

(** C7 as stated fails: the critical average of 1d8+3 is not 12.5. *)
Lemma parseDamageInput_1d8_plus_3_not_12_5 :
  ~ (let d := parseDamageInput "1d8+3" in
     DamageResult.numDice d = Some 1 /\
     DamageResult.diceSides d = Some 8 /\
     DamageResult.modifier d = Some 3 /\
     (DamageResult.average d == 75 # 10)%Q /\
     DamageResult.min d = 4 /\
     DamageResult.max d = 11 /\
     DamageResult.criticalMin d = Some 5 /\
     DamageResult.criticalMax d = Some 19 /\
     exists q, DamageResult.criticalAverage d = Some q /\ (q == 125 # 10)%Q).
Proof.
  intros (_ & _ & _ & _ & _ & _ & _ & _ & q & Hq & Hv).
  vm_compute in Hq. injection Hq as <-. discriminate Hv.
Qed.

(** C7, amended: 1d8+3 parses to numDice=1, diceSides=8, modifier=3,
    average=7.5, min=4, max=11, criticalMin=5, criticalMax=19 and
    criticalAverage=12 (two dice of average 4.5 and the modifier once). *)
Theorem parseDamageInput_1d8_plus_3 :
  let d := parseDamageInput "1d8+3" in
  DamageResult.numDice d = Some 1 /\
  DamageResult.diceSides d = Some 8 /\
  DamageResult.modifier d = Some 3 /\
  DamageResult.fixedDamage d = None /\
  (DamageResult.average d == 75 # 10)%Q /\
  DamageResult.min d = 4 /\
  DamageResult.max d = 11 /\
  DamageResult.criticalMin d = Some 5 /\
  DamageResult.criticalMax d = Some 19 /\
  exists q, DamageResult.criticalAverage d = Some q /\ (q == 12)%Q.
Proof.
  vm_compute. repeat split; try reflexivity.
  eexists. split; reflexivity.
Qed.

(** C10: a string that [isValidDamageInput] rejects is still parsed, to
    the fallback result with fixedDamage=1, average=min=max=1 and
    criticalAverage=criticalMin=criticalMax=2; the parser has no way to
    report that the string was invalid. *)
Theorem parseDamageInput_invalid_fallback (damageInput : string) :
  isValidDamageInput damageInput = false ->
  parseDamageInput damageInput = fallbackDamage /\
  exists valid,
    isValidDamageInput valid = true /\
    parseDamageInput valid = parseDamageInput damageInput.
Proof.
  intros Hinv.
  assert (Hfb : parseDamageInput damageInput = fallbackDamage);
    [|split; [exact Hfb | exists "1"%string; rewrite Hfb; split; reflexivity]].
  revert Hinv. unfold isValidDamageInput, parseDamageInput.
  set (cleaned := trim (list_ascii_of_string damageInput)).
  intros Hinv. apply orb_false_iff in Hinv as [Hdice Hfixed].
  apply bool_decide_eq_false in Hdice, Hfixed.
  destruct (fixedRegex cleaned) as [digits0|]; [exfalso; apply Hfixed; eauto|].
  destruct (diceRegex cleaned) as [groups|]; [exfalso; apply Hdice; eauto|].
  reflexivity.
Qed.

Lemma parseDamageInput_invalid_fallback_witness :
  isValidDamageInput "abc" = false /\
  parseDamageInput "abc" = fallbackDamage /\
  exists valid,
    isValidDamageInput valid = true /\
    parseDamageInput valid = parseDamageInput "abc".
Proof.
  split; [reflexivity|].
  apply (parseDamageInput_invalid_fallback "abc"). reflexivity.
Defined.

(** The strings the specification lists as invalid are rejected. *)
Lemma isValidDamageInput_rejects :
  isValidDamageInput "abc" = false /\
  isValidDamageInput EmptyString = false /\
  isValidDamageInput "d8" = false /\
  isValidDamageInput "-5" = false.
Proof. repeat split. Qed.

(** ** Matching dice notation *)









Lemma allSpaces_rev ws : allSpaces ws -> allSpaces (rev ws).
Proof.
  unfold allSpaces. rewrite !forallb_forall. intros H c Hc.
  apply H, in_rev, Hc.
Qed.




(** * Further properties *)

(** ** White space and the two notations *)

Lemma spaces_app_l ws s : allSpaces ws -> spaces (ws ++ s) = spaces s.
Proof.
  unfold allSpaces. induction ws as [|w ws IH]; simpl; intros Hws; [reflexivity|].
  apply andb_true_iff in Hws as [-> Hws]. apply IH, Hws.
Qed.

Lemma spaces_all ws : allSpaces ws -> spaces ws = [].
Proof.
  intros Hws. rewrite <- (app_nil_r ws). rewrite spaces_app_l by exact Hws.
  reflexivity.
Qed.

Lemma spaces_app_r s ws :
  allSpaces ws ->
  spaces (s ++ ws) = match spaces s with [] => [] | x => x ++ ws end.
Proof.
  intros Hws. induction s as [|c s IH]; simpl; [apply spaces_all, Hws|].
  destruct (isSpace c); [exact IH | reflexivity].
Qed.

Lemma trim_around ws0 s ws1 :
  allSpaces ws0 -> allSpaces ws1 -> trim (ws0 ++ s ++ ws1) = trim s.
Proof.
  intros H0 H1. unfold trim.
  rewrite spaces_app_l, spaces_app_r by assumption.
  destruct (spaces s) as [|c x] eqn:Hs; [reflexivity|].
  rewrite rev_app_distr, spaces_app_l by (apply allSpaces_rev, H1).
  reflexivity.
Qed.







(** X3: white space before and after the text changes neither the
    verdict of [isValidDamageInput] nor the result of [parseDamageInput]. *)
Theorem parseDamageInput_ignores_outer_spaces (ws0 ws1 : list ascii) (s : string) :
  allSpaces ws0 -> allSpaces ws1 ->
  let padded := string_of_list_ascii (ws0 ++ list_ascii_of_string s ++ ws1) in
  isValidDamageInput padded = isValidDamageInput s /\
  parseDamageInput padded = parseDamageInput s.
Proof.
  intros H0 H1 padded. unfold isValidDamageInput, parseDamageInput, padded.
  rewrite list_ascii_of_string_of_list_ascii, trim_around by assumption.
  split; reflexivity.
Qed.

Lemma parseDamageInput_ignores_outer_spaces_witness :
  isValidDamageInput
    (string_of_list_ascii
       ([" "%char; "009"%char] ++ list_ascii_of_string "2d6-1" ++ [" "%char]))
  = isValidDamageInput "2d6-1" /\
  parseDamageInput
    (string_of_list_ascii
       ([" "%char; "009"%char] ++ list_ascii_of_string "2d6-1" ++ [" "%char]))
  = parseDamageInput "2d6-1".
Proof.
  apply (parseDamageInput_ignores_outer_spaces
           [" "%char; "009"%char] [" "%char] "2d6-1"); reflexivity.
Defined.

(** ** What every parse result satisfies *)

Lemma digitRun_sound s : forallb isDigit (fst (digitRun s)) = true.
Proof.
  induction s as [|c s IH]; simpl; [reflexivity|].
  destruct (isDigit c) eqn:Hc; [|reflexivity].
  destruct (digitRun s) as [d r]. simpl in *. rewrite Hc, IH. reflexivity.
Qed.

Lemma digits_sound s d r : digits s = Some (d, r) -> isNumber d.
Proof.
  unfold digits. pose proof (digitRun_sound s) as Hs.
  destruct (digitRun s) as [[|c d'] r']; [discriminate|].
  intros [= <- <-]. split; [discriminate | exact Hs].
Qed.

Lemma digitValue_range c : isDigit c = true -> 0 <= digitValue c <= 9.
Proof.
  unfold isDigit, digitValue. intros H.
  apply andb_true_iff in H as [H1 H2].
  apply N.leb_le in H1, H2. lia.
Qed.

Lemma parseInt_from_nonneg d acc :
  0 <= acc -> forallb isDigit d = true ->
  0 <= fold_left (fun acc c => acc * 10 + digitValue c) d acc.
Proof.
  revert acc. induction d as [|c d IH]; simpl; intros acc Hacc Hd; [exact Hacc|].
  apply andb_true_iff in Hd as [Hc Hd].
  apply IH; [|exact Hd]. pose proof (digitValue_range c Hc). lia.
Qed.

Lemma parseInt_nonneg d : isNumber d -> 0 <= parseInt d.
Proof. intros [_ Hd]. apply parseInt_from_nonneg; [lia | exact Hd]. Qed.

Lemma fixedRegex_sound s d : fixedRegex s = Some d -> isNumber d.
Proof.
  unfold fixedRegex. destruct (digits (spaces s)) as [[d' r]|] eqn:Hd; [|discriminate].
  destruct (spaces r); [|discriminate]. intros [= <-].
  eapply digits_sound, Hd.
Qed.

Lemma diceRegex_sound s g :
  diceRegex s = Some g ->
  isNumber (group1 g) /\ isNumber (group2 g) /\
  match group4 g with Some k => isNumber k | None => True end.
Proof.
  unfold diceRegex.
  destruct (digits (spaces s)) as [[n r1]|] eqn:Hn; [|discriminate].
  destruct (spaces r1) as [|c r2]; [discriminate|].
  destruct (Ascii.eqb c "d" || Ascii.eqb c "D")%char; [|discriminate].
  destruct (digits (spaces r2)) as [[m r3]|] eqn:Hm; [|discriminate].
  apply digits_sound in Hn, Hm.
  destruct (spaces r3) as [|o r4]; [intros [= <-]; simpl; tauto|].
  destruct (Ascii.eqb o "+" || Ascii.eqb o "-")%char; [|discriminate].
  destruct (digits (spaces r4)) as [[k r5]|] eqn:Hk; [|discriminate].
  apply digits_sound in Hk.
  destruct (spaces r5); [|discriminate]. intros [= <-]. simpl. tauto.
Qed.

(** Every result is one of the two records, on numbers that are not
    negative. *)
Lemma parseDamageInput_cases s :
  (exists damage, 0 <= damage /\ parseDamageInput s = fixedResult damage) \/
  (exists numDice sides actualModifier,
     0 <= numDice /\ 0 <= sides /\
     parseDamageInput s = diceResult numDice sides actualModifier).
Proof.
  unfold parseDamageInput.
  set (cleaned := trim (list_ascii_of_string s)).
  destruct (fixedRegex cleaned) as [d|] eqn:Hf.
  - left. exists (parseInt d).
    split; [apply parseInt_nonneg, (fixedRegex_sound _ _ Hf) | reflexivity].
  - destruct (diceRegex cleaned) as [g|] eqn:Hd.
    + right. destruct (diceRegex_sound _ _ Hd) as (Hn & Hm & _).
      eexists _, _, _.
      split; [apply parseInt_nonneg, Hn|].
      split; [apply parseInt_nonneg, Hm | reflexivity].
    + left. exists 1. split; [lia | reflexivity].
Qed.

(** X4: whatever the string, the result has exactly one of the two
    shapes [rollDamage] distinguishes: fixedDamage alone, or numDice,
    diceSides and modifier together; fixedDamage, numDice and diceSides are
    never negative. *)
Theorem parseDamageInput_shape (damageInput : string) :
  let r := parseDamageInput damageInput in
  (exists damage,
     0 <= damage /\
     DamageResult.fixedDamage r = Some damage /\
     DamageResult.numDice r = None /\
     DamageResult.diceSides r = None /\
     DamageResult.modifier r = None) \/
  (exists numDice sides actualModifier,
     0 <= numDice /\ 0 <= sides /\
     DamageResult.fixedDamage r = None /\
     DamageResult.numDice r = Some numDice /\
     DamageResult.diceSides r = Some sides /\
     DamageResult.modifier r = Some actualModifier).
Proof.
  intros r. unfold r.
  destruct (parseDamageInput_cases damageInput)
    as [(d & Hd & ->)|(N & M & K & HN & HM & ->)].
  - left. exists d. repeat split; assumption.
  - right. exists N, M, K. repeat split; assumption.
Qed.


(** ** Hit probability and the simulated attack roll *)

Lemma attackOnce_attackHits h am ac damage crit remainingHealth calls :
  attackOnce h am ac damage crit remainingHealth calls
  = let d20Roll := Qfloor (Math_random h calls * 20) + 1 in
    let '(hits, isCritical) := attackHits am ac crit d20Roll in
    if hits then
      let '(damageDealt, calls') := rollDamage h damage isCritical (N.succ calls) in
      ((remainingHealth - inject_Z damageDealt)%Q, calls')
    else (remainingHealth, N.succ calls).
Proof.
  unfold attackOnce, attackHits, bind, random, ret. cbv zeta.
  destruct crit; [destruct (_ =? 1); [reflexivity|];
                  destruct (_ =? 20); [reflexivity|]|];
    destruct (Qle_bool _ _); reflexivity.
Qed.

(** X6: the hit probability does not decrease when the attack modifier
    grows or the armor class shrinks. *)
Theorem d20HitProb_monotone (attackModifier attackModifier' armorClass armorClass' : Q)
    (enforceNatRules : bool) :
  (attackModifier <= attackModifier')%Q -> (armorClass' <= armorClass)%Q ->
  (d20HitProb attackModifier armorClass enforceNatRules
   <= d20HitProb attackModifier' armorClass' enforceNatRules)%Q.
Proof.
  intros Ha Hac.
  assert (Hraw : ((21 + attackModifier - armorClass) / 20
                  <= (21 + attackModifier' - armorClass') / 20)%Q).
  { apply Qmult_le_compat_r; [|discriminate].
    unfold Qminus. apply Qplus_le_compat.
    - apply Qplus_le_r, Ha.
    - apply Qopp_le_compat, Hac. }
  assert (Hp : (Qmax 0 (Qmin 1 ((21 + attackModifier - armorClass) / 20))
                <= Qmax 0 (Qmin 1 ((21 + attackModifier' - armorClass') / 20)))%Q)
    by (apply Q.max_le_compat_l, Q.min_le_compat_l, Hraw).
  unfold d20HitProb. destruct enforceNatRules; [|exact Hp].
  apply Q.max_le_compat_l, Q.min_le_compat_l, Hp.
Qed.

Lemma d20HitProb_monotone_witness :
  (d20HitProb 3 15 true <= d20HitProb 5 12 true)%Q.
Proof. apply (d20HitProb_monotone 3 5 15 12 true); discriminate. Defined.

Lemma div20_le x y : x <= y -> (inject_Z x / 20 <= inject_Z y / 20)%Q.
Proof.
  intros H. apply Qmult_le_compat_r; [|discriminate]. rewrite <- Zle_Qle. exact H.
Qed.

Lemma Qmin_div20 (c : Q) (cz x : Z) :
  (c == inject_Z cz / 20)%Q ->
  (Qmin c (inject_Z x / 20) == inject_Z (Z.min cz x) / 20)%Q.
Proof.
  intros ->. destruct (Z.min_spec cz x) as [[Hlt ->]|[Hle ->]].
  - apply Q.min_l, div20_le. lia.
  - apply Q.min_r, div20_le. lia.
Qed.

Lemma Qmax_div20 (c : Q) (cz x : Z) :
  (c == inject_Z cz / 20)%Q ->
  (Qmax c (inject_Z x / 20) == inject_Z (Z.max cz x) / 20)%Q.
Proof.
  intros ->. destruct (Z.max_spec cz x) as [[Hlt ->]|[Hle ->]].
  - apply Q.max_r, div20_le. lia.
  - apply Q.max_l, div20_le. lia.
Qed.

(** On integers the hit probability is a number of twentieths. *)
Lemma d20HitProb_twentieths (am ac : Z) crit :
  (d20HitProb (inject_Z am) (inject_Z ac) crit
   == inject_Z (if crit then Z.max 1 (Z.min 19 (21 + am - ac))
                else Z.max 0 (Z.min 20 (21 + am - ac))) / 20)%Q.
Proof.
  assert (Hraw : ((21 + inject_Z am - inject_Z ac) / 20
                  == inject_Z (21 + am - ac) / 20)%Q).
  { unfold Zminus. rewrite !inject_Z_plus, inject_Z_opp. reflexivity. }
  assert (Hp : (Qmax 0 (Qmin 1 ((21 + inject_Z am - inject_Z ac) / 20))
                == inject_Z (Z.max 0 (Z.min 20 (21 + am - ac))) / 20)%Q).
  { rewrite Hraw.
    rewrite (Qmin_div20 1 20), (Qmax_div20 0 0) by reflexivity.
    reflexivity. }
  unfold d20HitProb. destruct crit; [|exact Hp].
  rewrite Hp.
  rewrite (Qmin_div20 (19 / 20) 19), (Qmax_div20 (1 / 20) 1) by reflexivity.
  replace (Z.max 1 (Z.min 19 (Z.max 0 (Z.min 20 (21 + am - ac)))))
    with (Z.max 1 (Z.min 19 (21 + am - ac))) by lia.
  reflexivity.
Qed.

Lemma filter_ext_in (P Q : Z -> Prop) `{!forall x, Decision (P x)}
    `{!forall x, Decision (Q x)} (l : list Z) :
  (forall x, In x l -> (P x <-> Q x)) -> filter P l = filter Q l.
Proof.
  induction l as [|x l IH]; intros Hext; [reflexivity|].
  rewrite !filter_cons, IH by (intros y Hy; apply Hext; right; exact Hy).
  assert (Hx : P x <-> Q x) by (apply Hext; left; reflexivity).
  destruct (decide (P x)), (decide (Q x)); tauto.
Qed.

(** The number of members of [m, m + 1, ..., m + n - 1] that are at
    least [t]. *)
Lemma count_at_least t m (n : nat) :
  Z.of_nat (length (filter (fun r => t <= r) (seqZ m (Z.of_nat n))))
  = Z.max 0 (Z.min (Z.of_nat n) (m + Z.of_nat n - t)).
Proof.
  revert m. induction n as [|n IH]; intros m; [simpl; lia|].
  rewrite seqZ_cons by lia.
  replace (Z.pred (Z.of_nat (S n))) with (Z.of_nat n) by lia.
  rewrite filter_cons. specialize (IH (Z.succ m)).
  destruct (decide (t <= m)); simpl length; lia.
Qed.

Lemma attackHits_threshold (am ac r : Z) :
  Qle_bool (inject_Z ac) (inject_Z r + inject_Z am) = true <-> ac - am <= r.
Proof.
  rewrite Qle_bool_iff, <- inject_Z_plus, <- Zle_Qle. lia.
Qed.

(** X7: for an integer attack modifier and armor class, the share of the
    twenty d20 faces on which the simulated attack hits is the hit
    probability of [d20HitProb], with and without critical rules. *)
Theorem d20HitProb_counts_hitting_faces (attackModifier armorClass : Z)
    (useCriticalMechanics : bool) :
  (inject_Z (hittingFaces (inject_Z attackModifier) (inject_Z armorClass)
               useCriticalMechanics) / 20
   == d20HitProb (inject_Z attackModifier) (inject_Z armorClass)
        useCriticalMechanics)%Q.
Proof.
  rewrite d20HitProb_twentieths.
  apply Qmult_comp; [|reflexivity]. apply inject_Z_injective.
  unfold hittingFaces, attackHits. destruct useCriticalMechanics.
  - change (seqZ 1 20) with ([1] ++ seqZ 2 (Z.of_nat 18) ++ [20]).
    rewrite !filter_app, !length_app, !Nat2Z.inj_add.
    rewrite (filter_ext_in _ (fun r => armorClass - attackModifier <= r)
               (seqZ 2 (Z.of_nat 18))).
    + rewrite count_at_least. cbn.
      destruct (decide (false = true)); [discriminate|].
      destruct (decide (true = true)); [|contradiction]. simpl length. lia.
    + intros r Hr. apply In_seqZ in Hr.
      destruct (Z.eqb_spec r 1); [lia|]. destruct (Z.eqb_spec r 20); [lia|].
      cbn [fst]. apply attackHits_threshold.
  - change 20 with (Z.of_nat 20) at 1.
    rewrite (filter_ext_in _ (fun r => armorClass - attackModifier <= r)).
    + rewrite count_at_least. lia.
    + intros r _. cbn [fst]. apply attackHits_threshold.
Qed.

(** ** [gcd] and [comb] as arithmetic *)

(** X8: [gcd] is the greatest common divisor of its arguments, whatever
    their signs, except that [gcd 0 0] is 1. *)
Theorem gcd_correct (a b : Z) :
  gcd a b = if (a =? 0) && (b =? 0) then 1 else Z.gcd a b.
Proof.
  unfold gcd. cbv zeta. rewrite gcd_loop_spec by lia.
  rewrite Z.gcd_abs_l, Z.gcd_abs_r.
  destruct (Z.eqb_spec (Z.gcd a b) 0) as [E|E].
  - apply Z.gcd_eq_0 in E as [-> ->]. reflexivity.
  - destruct (Z.eqb_spec a 0) as [->|Ha]; [|reflexivity].
    destruct (Z.eqb_spec b 0) as [->|Hb]; [|reflexivity].
    contradiction E. reflexivity.
Qed.




(** ** The analytic engine: errors, support and mass of the PMF *)


(** The engine on inputs that pass both checks, with a hit probability
    other than 0. *)
Lemma timeToKillDistribution_regular h am ac damage health crit :
  (0 < health)%Q -> (0 < damage)%Q -> ~ (d20HitProb am ac crit == 0)%Q ->
  let p := d20HitProb am ac crit in
  let r := Qceiling (health / damage) in
  exists pmf',
    pmfLoop 1000 r p [] r 1 = Some pmf' /\
    timeToKillDistribution h am ac damage health crit
    = Some (Ok {| hitProbability := p;
                  hitsNeeded := Fin (inject_Z r);
                  pmf := pmf';
                  mean := Fin (inject_Z r / p);
                  variance := Fin (inject_Z r * (1 - p) / (p * p));
                  stdev := jssqrt h (Fin (inject_Z r * (1 - p) / (p * p)));
                  roundsDistribution :=
                    map (fun point => (prob point * 100)%Q) pmf' |}).
Proof.
  intros Hh Hd Hp p r.
  destruct (pmfLoop_terminates 1000 r p [] r 1 ltac:(lia) ltac:(lia))
    as [pmf' Hloop].
  exists pmf'. split; [exact Hloop|].
  unfold timeToKillDistribution.
  rewrite (proj2 (Qle_bool_false damage 0) Hd), (proj2 (Qle_bool_false health 0) Hh).
  fold p. fold r.
  destruct (Qeq_bool p 0) eqn:E; [apply Qeq_bool_iff in E; contradiction|].
  rewrite Hloop. reflexivity.
Qed.









Lemma pmfLoop_step fuel r p acc n tail :
  pmfLoop (S fuel) r p acc n tail
  = if Qlt_bool maxTailProb tail && (n - r <? 1000) then
      pmfLoop fuel r p (acc ++ [{| attacks := n; prob := negBinomPMF n r p |}])
        (n + 1) (tail - negBinomPMF n r p)%Q
    else Some acc.
Proof. reflexivity. Qed.

Lemma pmfLoop_single fuel r p :
  (negBinomPMF r r p == 1)%Q ->
  pmfLoop (S (S fuel)) r p [] r 1
  = Some [{| attacks := r; prob := negBinomPMF r r p |}].
Proof.
  intros Hq. rewrite pmfLoop_step, Z.sub_diag.
  replace (Qlt_bool maxTailProb 1 && (0 <? 1000)) with true by reflexivity.
  rewrite pmfLoop_step.
  assert (Hstop : Qlt_bool maxTailProb (1 - negBinomPMF r r p) = false)
    by (apply Qlt_bool_false; rewrite Hq; discriminate).
  rewrite Hstop. reflexivity.
Qed.

(** X13: when the hit probability is exactly 1 (only possible without
    critical rules) every attack hits: the PMF of the analytic engine is
    the single point at hitsNeeded with probability 1, the mean is
    hitsNeeded and the variance 0. *)
Theorem timeToKillDistribution_certain_hit
    (h : Host) (attackModifier armorClass damage health : Q)
    (useCriticalMechanics : bool) :
  (0 < health)%Q -> (0 < damage)%Q ->
  (d20HitProb attackModifier armorClass useCriticalMechanics == 1)%Q ->
  useCriticalMechanics = false /\
  exists res q m v,
    timeToKillDistribution h attackModifier armorClass damage health
      useCriticalMechanics = Some (Ok res) /\
    pmf res = [{| attacks := Qceiling (health / damage); prob := q |}] /\
    (q == 1)%Q /\
    mean res = Fin m /\ (m == inject_Z (Qceiling (health / damage)))%Q /\
    variance res = Fin v /\ (v == 0)%Q.
Proof.
  intros Hh Hd Hp1. split.
  - destruct useCriticalMechanics; [|reflexivity].
    destruct (d20HitProb_nat_range attackModifier armorClass) as [_ Hu].
    rewrite Hp1 in Hu. exfalso. revert Hu. apply Qlt_not_le. reflexivity.
  - assert (Hp0 : ~ (d20HitProb attackModifier armorClass useCriticalMechanics == 0)%Q)
      by (rewrite Hp1; discriminate).
    destruct (timeToKillDistribution_regular h attackModifier armorClass damage
                health useCriticalMechanics Hh Hd Hp0) as (pmf' & Hloop & ->).
    set (p := d20HitProb attackModifier armorClass useCriticalMechanics) in *.
    set (r := Qceiling (health / damage)) in *.
    assert (Hr : 1 <= r) by (apply hitsNeeded_pos; assumption).
    assert (Hq : (negBinomPMF r r p == 1)%Q).
    { rewrite negBinomPMF_choose by lia.
      rewrite choose_diag, Z.sub_diag, Hp1, Qpower_1. reflexivity. }
    rewrite (pmfLoop_single 998 r p Hq) in Hloop. injection Hloop as <-.
    eexists _, _, _, _. split; [reflexivity|]. cbn [pmf mean variance].
    split; [reflexivity|]. split; [exact Hq|].
    split; [reflexivity|]. split; [rewrite Hp1; field|].
    split; [reflexivity|]. rewrite Hp1. field.
Qed.

Lemma timeToKillDistribution_certain_hit_witness :
  false = false /\
  exists res q m v,
    timeToKillDistribution zeroHost 9 10 8 25 false = Some (Ok res) /\
    pmf res = [{| attacks := Qceiling (25 / 8); prob := q |}] /\
    (q == 1)%Q /\
    mean res = Fin m /\ (m == inject_Z (Qceiling (25 / 8)))%Q /\
    variance res = Fin v /\ (v == 0)%Q.
Proof.
  apply (timeToKillDistribution_certain_hit zeroHost 9 10 8 25 false);
    reflexivity.
Defined.

(** ** Rolling dice *)

(** The face computed from a value of [Math.random()]. *)
Lemma face_range (r : Q) (sides : Z) :
  (0 <= r < 1)%Q -> 1 <= sides -> 1 <= Qfloor (r * inject_Z sides) + 1 <= sides.
Proof.
  intros [H0 H1] Hs.
  assert (Hs0 : (0 < inject_Z sides)%Q)
    by (change 0%Q with (inject_Z 0); rewrite <- Zlt_Qlt; lia).
  assert (Hlo : (0 <= r * inject_Z sides)%Q)
    by (apply Qmult_le_0_compat; [exact H0 | apply Qlt_le_weak, Hs0]).
  assert (Hhi : (r * inject_Z sides < inject_Z sides)%Q).
  { rewrite <- (Qmult_1_l (inject_Z sides)) at 2.
    apply Qmult_lt_compat_r; assumption. }
  apply Qfloor_resp_le in Hlo. change (Qfloor 0) with 0 in Hlo.
  assert (Hfl : (inject_Z (Qfloor (r * inject_Z sides)) < inject_Z sides)%Q)
    by (eapply Qle_lt_trans; [apply Qfloor_le | exact Hhi]).
  rewrite <- Zlt_Qlt in Hfl. lia.
Qed.

Lemma rollDie_spec h sides calls :
  goodRandom h -> 1 <= sides ->
  1 <= fst (rollDie h sides calls) <= sides /\
  snd (rollDie h sides calls) = N.succ calls.
Proof.
  intros Hgood Hs. split; [|reflexivity].
  apply (face_range (Math_random h calls) sides (Hgood calls) Hs).
Qed.

(** X14: on a random source with values in [0, 1), a die of at least
    one side shows a face between 1 and its number of sides, and rolling
    it takes exactly one call of [Math.random()]. *)
Theorem rollDie_range (h : Host) (sides : Z) (calls : N) :
  goodRandom h -> 1 <= sides ->
  1 <= fst (rollDie h sides calls) <= sides /\
  snd (rollDie h sides calls) = N.succ calls.
Proof.
  intros Hgood Hs. unfold rollDie, bind, random, ret. cbn [fst snd].
  split; [|reflexivity].
  apply face_range; [apply Hgood | exact Hs].
Qed.

Lemma zeroHost_good : goodRandom zeroHost.
Proof. intros i. split; [apply Qle_refl | reflexivity]. Qed.

Lemma firstMissHost_good : goodRandom firstMissHost.
Proof.
  intros i. simpl. destruct (i =? 0)%N; split; try discriminate; reflexivity.
Qed.

Lemma rollDie_range_witness :
  1 <= fst (rollDie firstMissHost 8 3%N) <= 8 /\
  snd (rollDie firstMissHost 8 3%N) = N.succ 3%N.
Proof.
  apply (rollDie_range firstMissHost 8 3%N); [exact firstMissHost_good | lia].
Defined.

Lemma rollDice_spec h (n : nat) sides total calls :
  goodRandom h -> 1 <= sides ->
  total + Z.of_nat n <= fst (rollDice h n sides total calls)
                     <= total + Z.of_nat n * sides /\
  snd (rollDice h n sides total calls) = (calls + N.of_nat n)%N.
Proof.
  intros Hgood Hs. revert total calls.
  induction n as [|n IH]; intros total calls; [simpl; split; [lia | lia]|].
  cbn [rollDice]. unfold bind.
  pose proof (rollDie_spec h sides calls Hgood Hs) as [Hd Hc].
  destruct (rollDie h sides calls) as [d calls1]. simpl in Hd, Hc. subst calls1.
  destruct (IH (total + d) (N.succ calls)) as [Hr Hcalls].
  rewrite Nat2Z.inj_succ. unfold Z.succ.
  split; [|rewrite Hcalls; lia].
  replace ((Z.of_nat n + 1) * sides) with (Z.of_nat n * sides + sides) by ring.
  lia.
Qed.

(** X15: on such a source, rolling N >= 1 dice of M >= 1 sides with
    modifier K takes one call per die and deals between N + K and N*M + K,
    with N doubled and K added once on a critical hit; the total is not
    raised to 0 when it is negative. *)
Theorem rollDamage_dice_range (h : Host) (numDice sides actualModifier : Z)
    (isCritical : bool) (calls : N) :
  goodRandom h -> 1 <= numDice -> 1 <= sides ->
  let diceToRoll := if isCritical then numDice * 2 else numDice in
  let out := rollDamage h (diceResult numDice sides actualModifier)
               isCritical calls in
  diceToRoll + actualModifier <= fst out <= diceToRoll * sides + actualModifier /\
  snd out = (calls + Z.to_N diceToRoll)%N.
Proof.
  intros Hgood HN HM diceToRoll out. unfold out, rollDamage. cbn [diceResult
    DamageResult.fixedDamage DamageResult.numDice DamageResult.diceSides
    DamageResult.modifier default from_option id].
  destruct (Z.eqb_spec numDice 0); [lia|].
  destruct (Z.eqb_spec sides 0); [lia|]. cbn [orb]. unfold bind, ret.
  fold diceToRoll.
  destruct (rollDice_spec h (Z.to_nat diceToRoll) sides 0 calls Hgood HM)
    as [Hr Hc].
  destruct (rollDice h (Z.to_nat diceToRoll) sides 0 calls) as [total calls1].
  simpl in *. subst calls1.
  assert (0 <= diceToRoll) by (unfold diceToRoll; destruct isCritical; lia).
  rewrite Z2Nat.id in Hr by assumption.
  split; [lia|]. rewrite Z_nat_N. reflexivity.
Qed.

Lemma rollDamage_dice_range_witness :
  let out := rollDamage firstMissHost (diceResult 1 8 3) true 5%N in
  1 * 2 + 3 <= fst out <= 1 * 2 * 8 + 3 /\
  snd out = (5 + Z.to_N (1 * 2))%N.
Proof.
  apply (rollDamage_dice_range firstMissHost 1 8 3 true 5%N);
    [exact firstMissHost_good | lia | lia].
Defined.

(** X16: fixed damage is dealt as it is, doubled on a critical hit, and
    dice notation with 0 dice or 0 sides falls back to 1 point of damage
    whatever its modifier; neither calls [Math.random()]. *)
Theorem rollDamage_without_dice (h : Host) (isCritical : bool) (calls : N) :
  (forall damage,
     rollDamage h (fixedResult damage) isCritical calls
     = (if isCritical then damage * 2 else damage, calls)) /\
  (forall numDice sides actualModifier,
     numDice = 0 \/ sides = 0 ->
     rollDamage h (diceResult numDice sides actualModifier) isCritical calls
     = (1, calls)).
Proof.
  split; [reflexivity|].
  intros N M K Hz. unfold rollDamage. cbn [diceResult
    DamageResult.fixedDamage DamageResult.numDice DamageResult.diceSides].
  destruct Hz as [-> | ->]; [reflexivity|].
  rewrite orb_true_r. reflexivity.
Qed.

(** ** The Monte Carlo engine: trials, errors and the shape of the PMF *)

Lemma rollDice_calls h (n : nat) sides total calls :
  snd (rollDice h n sides total calls) = (calls + N.of_nat n)%N.
Proof.
  revert total calls. induction n as [|n IH]; intros total calls; [simpl; lia|].
  cbn [rollDice]. unfold bind at 1.
  destruct (rollDie h sides calls) as [d calls1] eqn:Hd.
  assert (calls1 = N.succ calls) as -> by (unfold rollDie, bind, random, ret in Hd; congruence).
  rewrite IH. lia.
Qed.

Lemma rollDamage_calls h damage isCritical calls :
  (calls <= snd (rollDamage h damage isCritical calls))%N.
Proof.
  unfold rollDamage.
  destruct (DamageResult.fixedDamage damage); [simpl; lia|].
  destruct (DamageResult.numDice damage) as [N|]; [|simpl; lia].
  destruct (DamageResult.diceSides damage) as [M|]; [|simpl; lia].
  destruct ((N =? 0) || (M =? 0)); [simpl; lia|].
  unfold bind, ret.
  pose proof (rollDice_calls h (Z.to_nat (if isCritical then N * 2 else N)) M 0 calls)
    as Hc.
  destruct (rollDice h _ M 0 calls) as [total calls1]. simpl in *. lia.
Qed.

Lemma attackOnce_calls h am ac damage crit remainingHealth calls :
  (calls < snd (attackOnce h am ac damage crit remainingHealth calls))%N.
Proof.
  rewrite attackOnce_attackHits. cbv zeta.
  destruct (attackHits _ _ _ _) as [[|] isCritical]; [|simpl; lia].
  pose proof (rollDamage_calls h damage isCritical (N.succ calls)) as Hc.
  destruct (rollDamage h damage isCritical (N.succ calls)) as [dealt calls1].
  simpl in *. lia.
Qed.

Lemma attackLoop_calls h am ac damage crit maxA fuel remainingHealth attacks calls :
  let out := attackLoop h am ac damage crit maxA fuel remainingHealth attacks calls in
  Z.of_N calls + (snd (fst out) - attacks) <= Z.of_N (snd out).
Proof.
  revert remainingHealth attacks calls.
  induction fuel as [|fuel IH]; intros rh a calls; simpl;
    destruct (Qlt_bool 0 rh && (a <? maxA)); simpl; try lia.
  unfold bind.
  pose proof (attackOnce_calls h am ac damage crit rh calls) as Hc.
  destruct (attackOnce h am ac damage crit rh calls) as [rh' calls1].
  specialize (IH rh' (a + 1) calls1). simpl in *. lia.
Qed.

(** X17: with positive health, a trial makes at least one attack and at
    most as many as the cap allows, calls [Math.random()] at least once
    per attack, and if it stops before the cap the target has no health
    left. *)
Theorem trial_outcome (h : Host) (attackModifier armorClass : Q)
    (damage : DamageResult.t) (health : Q) (useCriticalMechanics : bool)
    (cap : Z) (calls : N) :
  (0 < health)%Q -> 0 < cap ->
  let out := trial h attackModifier armorClass damage health
               useCriticalMechanics cap calls in
  let remainingHealth := fst (fst out) in
  let attacks := snd (fst out) in
  1 <= attacks <= cap /\
  (attacks < cap -> (remainingHealth <= 0)%Q) /\
  Z.of_N calls + attacks <= Z.of_N (snd out).
Proof.
  intros Hh Hcap out rh a.
  split; [apply trial_range; assumption|].
  split; [apply trial_below_cap_killed|].
  pose proof (attackLoop_calls h attackModifier armorClass damage
                useCriticalMechanics cap (Z.to_nat cap) health 0 calls) as Hc.
  cbv zeta in Hc. unfold a, out, trial. lia.
Qed.

Lemma trial_outcome_witness :
  let out := trial firstMissHost 5 15 (parseDamageInput "1d8+3") 25 true
               maxAttacks 0%N in
  1 <= snd (fst out) <= maxAttacks /\
  (snd (fst out) < maxAttacks -> (fst (fst out) <= 0)%Q) /\
  Z.of_N 0%N + snd (fst out) <= Z.of_N (snd out).
Proof.
  apply (trial_outcome firstMissHost 5 15 (parseDamageInput "1d8+3") 25 true
           maxAttacks 0%N); reflexivity.
Defined.

Lemma timeToKillWithCriticals_throw h am ac damage health crit calls :
  (health <= 0)%Q ->
  timeToKillWithCriticals h am ac damage health crit calls
  = (Throw "health must be > 0", calls).
Proof.
  intros Hle. unfold timeToKillWithCriticals.
  rewrite (proj2 (Qle_bool_iff health 0) Hle). reflexivity.
Qed.

(** X18: the Monte Carlo engine throws exactly when health is not
    positive, and then without a single call of [Math.random()]; with
    positive health it returns a result. *)
Theorem timeToKillWithCriticals_throws_iff
    (h : Host) (attackModifier armorClass : Q) (damage : DamageResult.t)
    (health : Q) (useCriticalMechanics : bool) (calls : N) :
  ((health <= 0)%Q ->
   timeToKillWithCriticals h attackModifier armorClass damage health
     useCriticalMechanics calls = (Throw "health must be > 0", calls)) /\
  ((0 < health)%Q ->
   exists res,
     fst (timeToKillWithCriticals h attackModifier armorClass damage health
            useCriticalMechanics calls) = Ok res).
Proof.
  split.
  - intros Hle. unfold timeToKillWithCriticals.
    rewrite (proj2 (Qle_bool_iff health 0) Hle). reflexivity.
  - intros Hh. eexists. apply timeToKillWithCriticals_returns, Hh.
Qed.

Lemma sumZ_member_le (g : Z -> Z) l i :
  (forall j, 0 <= g j) -> In i l -> g i <= sumZ (map g l).
Proof.
  intros Hg. induction l as [|x l IH]; intros Hin; [destruct Hin|].
  destruct Hin as [->|Hi]; simpl.
  - pose proof (sumZ_nonneg g l Hg). lia.
  - specialize (IH Hi). specialize (Hg x). lia.
Qed.

(** The PMF that [summarize] builds from any counts: its points in terms
    of what the counting loops read. *)
Lemma summarize_pmf h am ac damage health crit maxA attackCounts :
  pmf (stats (summarize h am ac damage health crit maxA attackCounts))
  = flat_map (pointAt attackCounts (totalCountLoop maxA attackCounts))
      (seqZ 1 maxA).
Proof.
  destruct (summarize_fields h am ac damage health crit maxA attackCounts)
    as (-> & _).
  apply empiricalLoop_pmf.
Qed.

Lemma pointAt_prob attackCounts maxA pt :
  In pt (flat_map (pointAt attackCounts (totalCountLoop maxA attackCounts))
           (seqZ 1 maxA)) ->
  1 <= attacks pt <= maxA /\ 0 < countedAt attackCounts (attacks pt) /\
  (0 < prob pt <= 1)%Q.
Proof.
  intros Hpt. apply in_flat_map in Hpt as (i & Hi & Hpt).
  pose proof Hi as Hin. apply In_seqZ in Hi. unfold pointAt in Hpt.
  destruct (Z.ltb_spec 0 (countedAt attackCounts i)) as [Hc|_]; [|destruct Hpt].
  destruct Hpt as [<-|[]]. simpl.
  split; [lia|]. split; [exact Hc|].
  pose proof (sumZ_member_le (countedAt attackCounts) (seqZ 1 maxA) i
                (countedAt_nonneg attackCounts) Hin) as Hle.
  rewrite <- totalCountLoop_sum in Hle.
  set (c := countedAt attackCounts i) in *.
  set (t := totalCountLoop maxA attackCounts) in *.
  assert (Ht : (0 < inject_Z t)%Q)
    by (change 0%Q with (inject_Z 0); rewrite <- Zlt_Qlt; lia).
  split.
  - apply Qlt_shift_div_l; [exact Ht|]. rewrite Qmult_0_l.
    change 0%Q with (inject_Z 0). rewrite <- Zlt_Qlt. exact Hc.
  - apply Qle_shift_div_r; [exact Ht|]. rewrite Qmult_1_l.
    rewrite <- Zle_Qle. exact Hle.
Qed.

(** X19: for positive health, the attack counts of the returned PMF
    strictly increase and lie between 1 and 199, and every probability is
    positive and at most 1. *)
Theorem timeToKillWithCriticals_pmf_shape
    (h : Host) (attackModifier armorClass : Q) (damage : DamageResult.t)
    (health : Q) (useCriticalMechanics : bool) (calls : N) :
  (0 < health)%Q ->
  exists res,
    fst (timeToKillWithCriticals h attackModifier armorClass damage health
           useCriticalMechanics calls) = Ok res /\
    ascendingFrom 0 (pmf (stats res)) /\
    forall pt, In pt (pmf (stats res)) ->
      1 <= attacks pt <= 199 /\ (0 < prob pt <= 1)%Q.
Proof.
  intros Hh. eexists. split; [apply timeToKillWithCriticals_returns, Hh|].
  set (counts := fst (simLoop _ _ _ _ _ _ _ _ _ _)).
  rewrite summarize_pmf. split.
  - apply (pmf_ascending counts _ (Z.to_nat maxAttacks) 1).
  - intros pt Hpt.
    destruct (pointAt_prob counts maxAttacks pt Hpt) as (Ha & Hc & Hp).
    split; [|exact Hp].
    destruct (simulation_counts h attackModifier armorClass damage health
                useCriticalMechanics maxAttacks (Z.to_nat numSimulations) calls
                Hh ltac:(reflexivity)) as [Hcount _].
    fold counts in Hcount. rewrite (Hcount _ Ha) in Hc.
    destruct (Z.ltb_spec (attacks pt) maxAttacks) as [Hlt|_]; [|lia].
    unfold maxAttacks in Hlt. lia.
Qed.

Lemma timeToKillWithCriticals_pmf_shape_witness :
  exists res,
    fst (timeToKillWithCriticals firstMissHost 5 15 (parseDamageInput "1d8+3")
           25 true 0%N) = Ok res /\
    ascendingFrom 0 (pmf (stats res)) /\
    forall pt, In pt (pmf (stats res)) ->
      1 <= attacks pt <= 199 /\ (0 < prob pt <= 1)%Q.
Proof.
  apply (timeToKillWithCriticals_pmf_shape firstMissHost 5 15
           (parseDamageInput "1d8+3") 25 true 0%N).
  reflexivity.
Defined.

(** ** The Monte Carlo engine: moments *)

Section Moments.
Variable h : Host.
Variables attackModifier armorClass : Q.
Variable damage : DamageResult.t.
Variable health : Q.
Variable useCriticalMechanics : bool.
Variable cap : Z.
Variable attackCounts : list Z.

(** The running sums of the second counting loop are the first and the
    second moment of the points emitted so far. *)
Lemma empiricalLoop_moments totalCount :
  let out := empiricalLoop cap attackCounts totalCount in
  (snd (fst out)
   == sumQ (map (fun pt => inject_Z (attacks pt) * prob pt) (fst (fst out))))%Q /\
  (snd out
   == sumQ (map (fun pt => inject_Z (attacks pt) * inject_Z (attacks pt) * prob pt)
              (fst (fst out))))%Q.
Proof.
  unfold empiricalLoop.
  assert (Hinit :
    (snd (fst (@nil TTKPoint, 0%Q, 0%Q))
     == sumQ (map (fun pt => inject_Z (attacks pt) * prob pt)
                (fst (fst (@nil TTKPoint, 0%Q, 0%Q)))))%Q /\
    (snd (@nil TTKPoint, 0%Q, 0%Q)
     == sumQ (map (fun pt => inject_Z (attacks pt) * inject_Z (attacks pt) * prob pt)
                (fst (fst (@nil TTKPoint, 0%Q, 0%Q)))))%Q)
    by (split; reflexivity).
  revert Hinit. generalize (@nil TTKPoint, 0%Q, 0%Q). generalize (seqZ 1 cap).
  induction l as [|i l IH]; intros acc Hacc; [exact Hacc|].
  simpl fold_left. apply IH.
  destruct acc as [[pmf0 m] v]. simpl in Hacc. destruct Hacc as [Hm Hv].
  unfold pmfStep.
  destruct (attackCounts !! Z.to_nat i) as [c|]; [|split; assumption].
  destruct (0 <? c); [|split; assumption].
  simpl. rewrite !map_app, !sumQ_app. simpl. rewrite Hm, Hv. split; ring.
Qed.

Lemma summarize_moments :
  let res := summarize h attackModifier armorClass damage health
               useCriticalMechanics cap attackCounts in
  let out := empiricalLoop cap attackCounts (totalCountLoop cap attackCounts) in
  mean (stats res) = Fin (snd (fst out)) /\
  variance (stats res) = Fin (snd out - snd (fst out) * snd (fst out)) /\
  stdev (stats res)
  = jssqrt h (Fin (snd out - snd (fst out) * snd (fst out))) /\
  mode res = fst (modeLoop (fst (fst out))).
Proof.
  unfold summarize.
  destruct (empiricalLoop cap attackCounts (totalCountLoop cap attackCounts))
    as [[pmf0 m] v]. simpl fst. simpl snd.
  destruct (modeLoop pmf0) as [md mp]. simpl. repeat split.
Qed.
End Moments.

Lemma sumQ_nonneg (f : TTKPoint -> Q) l :
  (forall pt, In pt l -> (0 <= f pt)%Q) -> (0 <= sumQ (map f l))%Q.
Proof.
  induction l as [|pt l IH]; intros Hf; simpl; [apply Qle_refl|].
  assert (H1 : (0 <= f pt)%Q) by (apply Hf; left; reflexivity).
  assert (H2 : (0 <= sumQ (map f l))%Q)
    by (apply IH; intros q Hq; apply Hf; right; exact Hq).
  lra.
Qed.

Lemma moment_shift l c :
  (sumQ (map (fun pt => prob pt * (inject_Z (attacks pt) - c)) l)
   == sumQ (map (fun pt => inject_Z (attacks pt) * prob pt) l)
      - c * sumQ (map prob l))%Q.
Proof. induction l as [|pt l IH]; simpl; [ring|]. rewrite IH. ring. Qed.

Lemma moment_centred l c :
  (sumQ (map (fun pt => prob pt * ((inject_Z (attacks pt) - c)
                                   * (inject_Z (attacks pt) - c))) l)
   == sumQ (map (fun pt => inject_Z (attacks pt) * inject_Z (attacks pt) * prob pt) l)
      - 2 * c * sumQ (map (fun pt => inject_Z (attacks pt) * prob pt) l)
      + c * c * sumQ (map prob l))%Q.
Proof. induction l as [|pt l IH]; simpl; [ring|]. rewrite IH. ring. Qed.

Lemma Qsquare_nonneg (x : Q) : (0 <= x * x)%Q.
Proof.
  destruct (Qlt_le_dec x 0) as [Hn|Hp].
  - assert (E : (x * x == (- x) * (- x))%Q) by ring. rewrite E.
    apply Qmult_le_0_compat; lra.
  - apply Qmult_le_0_compat; exact Hp.
Qed.

(** Moments of a list of points with non-negative probabilities that is
    empty or of total mass 1. *)
Lemma moments_of_distribution l lo hi :
  (forall pt, In pt l -> lo <= attacks pt <= hi /\ (0 <= prob pt)%Q) ->
  l = [] \/ (sumQ (map prob l) == 1)%Q ->
  let m := sumQ (map (fun pt => inject_Z (attacks pt) * prob pt)%Q l) in
  let s := sumQ (map (fun pt => inject_Z (attacks pt) * inject_Z (attacks pt)
                                * prob pt)%Q l) in
  (0 <= s - m * m)%Q /\
  (l <> [] -> (inject_Z lo <= m <= inject_Z hi)%Q).
Proof.
  intros Hl [->|Hmass] m s.
  - split; [apply Qle_refl | intros H; contradiction].
  - split.
    + pose proof (moment_centred l m) as Hc. fold m s in Hc. rewrite Hmass in Hc.
      assert (Hn : (0 <= sumQ (map (fun pt => prob pt
                      * ((inject_Z (attacks pt) - m) * (inject_Z (attacks pt) - m)))
                      l))%Q).
      { apply sumQ_nonneg. intros pt Hpt.
        apply Qmult_le_0_compat; [apply Hl, Hpt | apply Qsquare_nonneg]. }
      rewrite Hc in Hn. lra.
    + intros _. split.
      * pose proof (moment_shift l (inject_Z lo)) as Hs. fold m in Hs.
        rewrite Hmass in Hs.
        assert (Hn : (0 <= sumQ (map (fun pt => prob pt
                        * (inject_Z (attacks pt) - inject_Z lo)) l))%Q).
        { apply sumQ_nonneg. intros pt Hpt. destruct (Hl pt Hpt) as [Ha Hp].
          apply Qmult_le_0_compat; [exact Hp|].
          assert ((inject_Z lo <= inject_Z (attacks pt))%Q)
            by (rewrite <- Zle_Qle; lia). lra. }
        rewrite Hs in Hn. lra.
      * pose proof (moment_shift l (inject_Z hi)) as Hs. fold m in Hs.
        rewrite Hmass in Hs.
        assert (Hn : (sumQ (map (fun pt => prob pt
                        * (inject_Z (attacks pt) - inject_Z hi)) l) <= 0)%Q).
        { assert (Hneg : (0 <= sumQ (map (fun pt => prob pt
                        * (inject_Z hi - inject_Z (attacks pt))) l))%Q).
          { apply sumQ_nonneg. intros pt Hpt. destruct (Hl pt Hpt) as [Ha Hp].
            apply Qmult_le_0_compat; [exact Hp|].
            assert ((inject_Z (attacks pt) <= inject_Z hi)%Q)
              by (rewrite <- Zle_Qle; lia). lra. }
          assert (Hopp : (sumQ (map (fun pt => prob pt
                        * (inject_Z hi - inject_Z (attacks pt))) l)
                          == - sumQ (map (fun pt => prob pt
                        * (inject_Z (attacks pt) - inject_Z hi)) l))%Q).
          { clear. induction l as [|pt l IH]; simpl; [ring|]. rewrite IH. ring. }
          rewrite Hopp in Hneg. lra. }
        rewrite Hs in Hn. lra.
Qed.

(** X20: for positive health, the returned mean is the sum of
    attacks * prob over the PMF and the returned variance the sum of
    attacks^2 * prob minus the square of the mean; the variance is never
    negative, so stdev is the square root of a number and not NaN, and
    when the PMF is not empty the mean lies between 1 and 199. *)
Theorem timeToKillWithCriticals_moments
    (h : Host) (attackModifier armorClass : Q) (damage : DamageResult.t)
    (health : Q) (useCriticalMechanics : bool) (calls : N) :
  (0 < health)%Q ->
  exists res m v,
    fst (timeToKillWithCriticals h attackModifier armorClass damage health
           useCriticalMechanics calls) = Ok res /\
    mean (stats res) = Fin m /\
    variance (stats res) = Fin v /\
    stdev (stats res) = Fin (Math_sqrt h v) /\
    (m == sumQ (map (fun pt => inject_Z (attacks pt) * prob pt)
                  (pmf (stats res))))%Q /\
    (v == sumQ (map (fun pt => inject_Z (attacks pt) * inject_Z (attacks pt)
                               * prob pt) (pmf (stats res))) - m * m)%Q /\
    (0 <= v)%Q /\
    (pmf (stats res) <> [] -> (1 <= m <= 199)%Q).
Proof.
  intros Hh.
  set (counts := fst (simLoop h attackModifier armorClass damage health
                        useCriticalMechanics maxAttacks (Z.to_nat numSimulations)
                        (replicate (Z.to_nat (maxAttacks + 1)) 0) calls)).
  pose proof (summarize_moments h attackModifier armorClass damage health
                useCriticalMechanics maxAttacks counts) as (Hmean & Hvar & Hsd & _).
  pose proof (empiricalLoop_moments maxAttacks counts
                (totalCountLoop maxAttacks counts)) as [Hm Hs].
  pose proof (summarize_fields h attackModifier armorClass damage health
                useCriticalMechanics maxAttacks counts) as (Hpmf & _).
  cbv zeta in Hmean, Hvar, Hsd, Hm, Hs, Hpmf.
  set (out := empiricalLoop maxAttacks counts (totalCountLoop maxAttacks counts)) in *.
  assert (Hdist : forall pt, In pt (fst (fst out)) ->
                    1 <= attacks pt <= 199 /\ (0 <= prob pt)%Q).
  { intros pt Hpt. unfold out in Hpt. rewrite empiricalLoop_pmf in Hpt.
    destruct (pointAt_prob counts maxAttacks pt Hpt) as (Ha & Hc & Hp).
    destruct (simulation_counts h attackModifier armorClass damage health
                useCriticalMechanics maxAttacks (Z.to_nat numSimulations) calls
                Hh ltac:(reflexivity)) as [Hcount _].
    fold counts in Hcount. rewrite (Hcount _ Ha) in Hc.
    destruct (Z.ltb_spec (attacks pt) maxAttacks) as [Hlt|_]; [|lia].
    unfold maxAttacks in Hlt. split; [lia | apply Qlt_le_weak, Hp]. }
  assert (Hmass : fst (fst out) = [] \/ (sumQ (map prob (fst (fst out))) == 1)%Q).
  { destruct (empirical_pmf_mass maxAttacks counts) as [[_ E]|[_ E]];
      [left | right]; exact E. }
  destruct (moments_of_distribution _ 1 199 Hdist Hmass) as [Hv0 Hmr].
  rewrite <- Hm, <- Hs in Hv0. rewrite <- Hm in Hmr.
  exists (summarize h attackModifier armorClass damage health
            useCriticalMechanics maxAttacks counts),
    (snd (fst out)), (snd out - snd (fst out) * snd (fst out))%Q.
  split; [apply timeToKillWithCriticals_returns, Hh|].
  split; [exact Hmean|]. split; [exact Hvar|].
  split.
  { rewrite Hsd. unfold jssqrt.
    rewrite (proj2 (Qlt_bool_false _ 0) Hv0). reflexivity. }
  rewrite Hpmf. split; [exact Hm|].
  split; [rewrite Hs; reflexivity|].
  split; [exact Hv0 | exact Hmr].
Qed.

Lemma timeToKillWithCriticals_moments_witness :
  exists res m v,
    fst (timeToKillWithCriticals firstMissHost 5 15 (parseDamageInput "1d8+3")
           25 true 0%N) = Ok res /\
    mean (stats res) = Fin m /\
    variance (stats res) = Fin v /\
    stdev (stats res) = Fin (Math_sqrt firstMissHost v) /\
    (m == sumQ (map (fun pt => inject_Z (attacks pt) * prob pt)
                  (pmf (stats res))))%Q /\
    (v == sumQ (map (fun pt => inject_Z (attacks pt) * inject_Z (attacks pt)
                               * prob pt) (pmf (stats res))) - m * m)%Q /\
    (0 <= v)%Q /\
    (pmf (stats res) <> [] -> (1 <= m <= 199)%Q).
Proof.
  apply (timeToKillWithCriticals_moments firstMissHost 5 15
           (parseDamageInput "1d8+3") 25 true 0%N).
  reflexivity.
Defined.

(** ** The Monte Carlo engine: runs in which every trial ends alike *)

Lemma pmfStep_skip attackCounts totalCount acc i :
  countedAt attackCounts i = 0 -> pmfStep attackCounts totalCount acc i = acc.
Proof.
  unfold countedAt, pmfStep. destruct acc as [[pmf0 m] v].
  destruct (attackCounts !! Z.to_nat i) as [c|]; [|reflexivity].
  destruct (Z.ltb_spec 0 c); [lia | reflexivity].
Qed.

Lemma empiricalLoop_empty cap attackCounts totalCount :
  totalCountLoop cap attackCounts = 0 ->
  empiricalLoop cap attackCounts totalCount = ([], 0%Q, 0%Q).
Proof.
  rewrite totalCountLoop_sum. intros Hsum. unfold empiricalLoop.
  assert (Hz : forall i, In i (seqZ 1 cap) -> countedAt attackCounts i = 0).
  { intros i Hi.
    pose proof (sumZ_member_le (countedAt attackCounts) _ i
                  (countedAt_nonneg attackCounts) Hi).
    pose proof (countedAt_nonneg attackCounts i). lia. }
  revert Hz. generalize (@nil TTKPoint, 0%Q, 0%Q). generalize (seqZ 1 cap).
  induction l as [|i l IH]; intros acc Hz; [reflexivity|].
  simpl. rewrite pmfStep_skip by (apply Hz; left; reflexivity).
  apply IH. intros j Hj. apply Hz. right. exact Hj.
Qed.

(** The result when no trial was counted. *)
Lemma summarize_empty h am ac damage health crit cap attackCounts :
  totalCountLoop cap attackCounts = 0 ->
  let res := summarize h am ac damage health crit cap attackCounts in
  pmf (stats res) = [] /\ mean (stats res) = Fin 0 /\
  variance (stats res) = Fin (0 - 0 * 0) /\
  stdev (stats res) = Fin (Math_sqrt h (0 - 0 * 0)) /\
  mode res = 1 /\ median res = 1 /\
  percentiles res = {| p25 := 1; p75 := 1; p90 := 1; p95 := 1 |}.
Proof.
  intros Hz. unfold summarize.
  rewrite (empiricalLoop_empty cap attackCounts _ Hz). simpl. repeat split.
Qed.

(** X21: for positive health, when no trial stopped before the cap the
    engine still returns a result: an empty PMF, mean 0, variance 0,
    and mode, median and all percentile markers at 1. *)
Theorem timeToKillWithCriticals_no_trial_retained
    (h : Host) (attackModifier armorClass : Q) (damage : DamageResult.t)
    (health : Q) (useCriticalMechanics : bool) (calls : N) :
  (0 < health)%Q ->
  retainedCount maxAttacks
    (fst (trialOutcomes h attackModifier armorClass damage health
            useCriticalMechanics maxAttacks (Z.to_nat numSimulations) calls)) = 0 ->
  exists res,
    fst (timeToKillWithCriticals h attackModifier armorClass damage health
           useCriticalMechanics calls) = Ok res /\
    pmf (stats res) = [] /\ mean (stats res) = Fin 0 /\
    variance (stats res) = Fin (0 - 0 * 0) /\
    stdev (stats res) = Fin (Math_sqrt h (0 - 0 * 0)) /\
    mode res = 1 /\ median res = 1 /\
    percentiles res = {| p25 := 1; p75 := 1; p90 := 1; p95 := 1 |}.
Proof.
  intros Hh Hret. eexists.
  split; [apply timeToKillWithCriticals_returns, Hh|].
  apply summarize_empty.
  destruct (simulation_counts h attackModifier armorClass damage health
              useCriticalMechanics maxAttacks (Z.to_nat numSimulations) calls
              Hh ltac:(reflexivity)) as [_ Htotal].
  rewrite Htotal. exact Hret.
Qed.

Lemma trialOutcomes_constant h am ac damage health crit cap c sims calls :
  (forall calls', snd (fst (trial h am ac damage health crit cap calls')) = c) ->
  fst (trialOutcomes h am ac damage health crit cap sims calls)
  = replicate sims c.
Proof.
  intros Hc. revert calls. induction sims as [|sims IH]; intros calls;
    [reflexivity|].
  simpl. unfold bind, ret. specialize (Hc calls).
  destruct (trial h am ac damage health crit cap calls) as [out calls1].
  specialize (IH calls1).
  destruct (trialOutcomes h am ac damage health crit cap sims calls1)
    as [outs calls2].
  simpl in *. rewrite Hc, IH. reflexivity.
Qed.

Lemma d20Roll_range h calls :
  goodRandom h -> 1 <= Qfloor (Math_random h calls * 20) + 1 <= 20.
Proof.
  intros Hgood.
  exact (proj1 (rollDie_spec h 20 calls Hgood ltac:(lia))).
Qed.

(** Without critical rules and with an armor class above 20 plus the
    attack modifier, no attack changes the health. *)
Lemma attackOnce_miss h am ac damage remainingHealth calls :
  goodRandom h -> (20 + am < ac)%Q ->
  fst (attackOnce h am ac damage false remainingHealth calls) = remainingHealth.
Proof.
  intros Hgood Hac. rewrite attackOnce_attackHits. cbv zeta.
  pose proof (d20Roll_range h calls Hgood) as Hd.
  unfold attackHits.
  set (d20Roll := Qfloor (Math_random h calls * 20) + 1) in *.
  assert (Hmiss : Qle_bool ac (inject_Z d20Roll + am) = false).
  { apply Qle_bool_false.
    assert ((inject_Z d20Roll <= 20)%Q)
      by (change 20%Q with (inject_Z 20); rewrite <- Zle_Qle; lia).
    lra. }
  rewrite Hmiss. reflexivity.
Qed.

Lemma attackLoop_all_miss h am ac damage cap fuel remainingHealth attacks calls :
  goodRandom h -> (20 + am < ac)%Q ->
  (0 < remainingHealth)%Q -> attacks <= cap ->
  (Z.to_nat (cap - attacks) <= fuel)%nat ->
  fst (attackLoop h am ac damage false cap fuel remainingHealth attacks calls)
  = (remainingHealth, cap).
Proof.
  intros Hgood Hac Hrh. revert attacks calls.
  induction fuel as [|fuel IH]; intros a calls Ha Hf; simpl;
    rewrite (proj2 (Qlt_bool_iff 0 remainingHealth) Hrh);
    destruct (Z.ltb_spec a cap) as [Hlt|Hge]; simpl; try lia;
    try (f_equal; lia).
  unfold bind.
  pose proof (attackOnce_miss h am ac damage remainingHealth calls Hgood Hac) as Hm.
  destruct (attackOnce h am ac damage false remainingHealth calls) as [rh' calls1].
  simpl in Hm. subst rh'. apply IH; lia.
Qed.

Lemma retainedCount_replicate cap n c :
  retainedCount cap (replicate n c) = if c <? cap then Z.of_nat n else 0.
Proof.
  induction n as [|n IH]; [destruct (c <? cap); reflexivity|].
  change (replicate (S n) c) with (c :: replicate n c).
  rewrite retainedCount_cons, IH. destruct (c <? cap); lia.
Qed.

Lemma unhittable_none_retained h am ac damage health sims calls :
  goodRandom h -> (0 < health)%Q -> (20 + am < ac)%Q ->
  retainedCount maxAttacks
    (fst (trialOutcomes h am ac damage health false maxAttacks sims calls)) = 0.
Proof.
  intros Hgood Hh Hac.
  rewrite (trialOutcomes_constant _ _ _ _ _ _ _ maxAttacks).
  - rewrite retainedCount_replicate. reflexivity.
  - intros calls'. unfold trial.
    rewrite attackLoop_all_miss by (try assumption; unfold maxAttacks; lia).
    reflexivity.
Qed.

Lemma timeToKillWithCriticals_no_trial_retained_witness :
  exists res,
    fst (timeToKillWithCriticals firstMissHost 0 30 (parseDamageInput "1d8+3")
           25 false 0%N) = Ok res /\
    pmf (stats res) = [] /\ mean (stats res) = Fin 0 /\
    variance (stats res) = Fin (0 - 0 * 0) /\
    stdev (stats res) = Fin (Math_sqrt firstMissHost (0 - 0 * 0)) /\
    mode res = 1 /\ median res = 1 /\
    percentiles res = {| p25 := 1; p75 := 1; p90 := 1; p95 := 1 |}.
Proof.
  apply (timeToKillWithCriticals_no_trial_retained firstMissHost 0 30
           (parseDamageInput "1d8+3") 25 false 0%N).
  - reflexivity.
  - apply unhittable_none_retained;
      [exact firstMissHost_good | reflexivity | reflexivity].
Defined.

(** X22: on a random source with values in [0, 1), without critical
    rules and with an armor class above 20 plus the attack modifier, no
    attack can hit: every trial runs into the cap, none is counted, and
    the engine returns an empty PMF with mean 0. *)
Theorem timeToKillWithCriticals_unhittable
    (h : Host) (attackModifier armorClass : Q) (damage : DamageResult.t)
    (health : Q) (calls : N) :
  goodRandom h -> (0 < health)%Q -> (20 + attackModifier < armorClass)%Q ->
  exists res,
    fst (timeToKillWithCriticals h attackModifier armorClass damage health
           false calls) = Ok res /\
    pmf (stats res) = [] /\ mean (stats res) = Fin 0 /\
    mode res = 1 /\ median res = 1 /\
    percentiles res = {| p25 := 1; p75 := 1; p90 := 1; p95 := 1 |}.
Proof.
  intros Hgood Hh Hac. eexists.
  split; [apply timeToKillWithCriticals_returns, Hh|].
  assert (Hz : totalCountLoop maxAttacks
                 (fst (simLoop h attackModifier armorClass damage health false
                         maxAttacks (Z.to_nat numSimulations)
                         (replicate (Z.to_nat (maxAttacks + 1)) 0) calls)) = 0).
  { destruct (simulation_counts h attackModifier armorClass damage health
                false maxAttacks (Z.to_nat numSimulations) calls
                Hh ltac:(reflexivity)) as [_ ->].
    apply unhittable_none_retained; assumption. }
  destruct (summarize_empty h attackModifier armorClass damage health false
              maxAttacks _ Hz) as (H1 & H2 & _ & _ & H3 & H4 & H5).
  repeat split; assumption.
Qed.

Lemma timeToKillWithCriticals_unhittable_witness :
  exists res,
    fst (timeToKillWithCriticals firstMissHost 0 30 (parseDamageInput "1d8+3")
           25 false 0%N) = Ok res /\
    pmf (stats res) = [] /\ mean (stats res) = Fin 0 /\
    mode res = 1 /\ median res = 1 /\
    percentiles res = {| p25 := 1; p75 := 1; p90 := 1; p95 := 1 |}.
Proof.
  apply (timeToKillWithCriticals_unhittable firstMissHost 0 30
           (parseDamageInput "1d8+3") 25 0%N);
    [exact firstMissHost_good | reflexivity | reflexivity].
Defined.

(** ** Mode and percentile markers *)

(** The mode loop from any starting state: either no point beats the
    starting probability, or the loop ends on the first point of largest
    probability. *)
Lemma modeLoop_from l mode0 maxProb0 :
  let out :=
    fold_left
      (fun st point =>
         let '(mode, maxProb) := st in
         if Qlt_bool maxProb (prob point) then (attacks point, prob point)
         else (mode, maxProb))
      l (mode0, maxProb0) in
  (out = (mode0, maxProb0) /\ forall x, In x l -> (prob x <= maxProb0)%Q) \/
  (exists l1 pt l2,
     l = l1 ++ pt :: l2 /\ out = (attacks pt, prob pt) /\
     (maxProb0 < prob pt)%Q /\
     (forall x, In x l1 -> (prob x < prob pt)%Q) /\
     (forall x, In x l2 -> (prob x <= prob pt)%Q)).
Proof.
  revert mode0 maxProb0. induction l as [|x l IH]; intros m0 q0; simpl.
  - left. split; [reflexivity | intros y []].
  - destruct (Qlt_bool q0 (prob x)) eqn:E.
    + apply Qlt_bool_iff in E.
      destruct (IH (attacks x) (prob x)) as [[Hout Hle]|(l1 & pt & l2 & -> & Hout & Hlt & H1 & H2)].
      * right. exists [], x, l. repeat split; try assumption. intros y [].
      * right. exists (x :: l1), pt, l2. repeat split; try assumption.
        -- eapply Qlt_trans; eassumption.
        -- intros y [<-|Hy]; [exact Hlt | apply H1, Hy].
    + apply Qlt_bool_false in E.
      destruct (IH m0 q0) as [[Hout Hle]|(l1 & pt & l2 & -> & Hout & Hlt & H1 & H2)].
      * left. split; [exact Hout|]. intros y [<-|Hy]; [exact E | apply Hle, Hy].
      * right. exists (x :: l1), pt, l2. repeat split; try assumption.
        intros y [<-|Hy]; [eapply Qle_lt_trans; eassumption | apply H1, Hy].
Qed.

(** X23: for positive health, the returned mode is 1 when the PMF is
    empty, and otherwise the attack count of the first point of largest
    probability: every earlier point has a strictly smaller probability
    and no later point a larger one. *)
Theorem timeToKillWithCriticals_mode
    (h : Host) (attackModifier armorClass : Q) (damage : DamageResult.t)
    (health : Q) (useCriticalMechanics : bool) (calls : N) :
  (0 < health)%Q ->
  exists res,
    fst (timeToKillWithCriticals h attackModifier armorClass damage health
           useCriticalMechanics calls) = Ok res /\
    ((pmf (stats res) = [] /\ mode res = 1) \/
     (exists l1 pt l2,
        pmf (stats res) = l1 ++ pt :: l2 /\ mode res = attacks pt /\
        (forall x, In x l1 -> (prob x < prob pt)%Q) /\
        (forall x, In x l2 -> (prob x <= prob pt)%Q))).
Proof.
  intros Hh. eexists. split; [apply timeToKillWithCriticals_returns, Hh|].
  set (counts := fst (simLoop _ _ _ _ _ _ _ _ _ _)).
  pose proof (summarize_moments h attackModifier armorClass damage health
                useCriticalMechanics maxAttacks counts) as (_ & _ & _ & Hmode).
  pose proof (summarize_fields h attackModifier armorClass damage health
                useCriticalMechanics maxAttacks counts) as (Hpmf & _).
  cbv zeta in Hmode, Hpmf. rewrite Hmode, Hpmf.
  set (pmf0 := fst (fst (empiricalLoop maxAttacks counts
                           (totalCountLoop maxAttacks counts)))).
  assert (Hpos : forall x, In x pmf0 -> (0 < prob x)%Q).
  { intros x Hx. unfold pmf0 in Hx. rewrite empiricalLoop_pmf in Hx.
    apply (pointAt_prob counts maxAttacks x Hx). }
  unfold modeLoop.
  destruct (modeLoop_from pmf0 1 0) as [[Hout Hle]|(l1 & pt & l2 & Hl & Hout & _ & H1 & H2)].
  - left. cbv zeta in Hout. rewrite Hout. split; [|reflexivity].
    destruct pmf0 as [|x l]; [reflexivity|].
    exfalso. apply (Qlt_not_le _ _ (Hpos x ltac:(left; reflexivity))).
    apply Hle. left. reflexivity.
  - right. exists l1, pt, l2. cbv zeta in Hout. rewrite Hout.
    repeat split; assumption.
Qed.

Lemma timeToKillWithCriticals_mode_witness :
  exists res,
    fst (timeToKillWithCriticals firstMissHost 5 15 (parseDamageInput "1d8+3")
           25 true 0%N) = Ok res /\
    ((pmf (stats res) = [] /\ mode res = 1) \/
     (exists l1 pt l2,
        pmf (stats res) = l1 ++ pt :: l2 /\ mode res = attacks pt /\
        (forall x, In x l1 -> (prob x < prob pt)%Q) /\
        (forall x, In x l2 -> (prob x <= prob pt)%Q))).
Proof.
  apply (timeToKillWithCriticals_mode firstMissHost 5 15
           (parseDamageInput "1d8+3") 25 true 0%N).
  reflexivity.
Defined.






(** ** A target that falls to the first attack *)

Lemma attackLoop_step h am ac damage crit cap fuel remainingHealth attacks calls :
  attackLoop h am ac damage crit cap (S fuel) remainingHealth attacks calls
  = if Qlt_bool 0 remainingHealth && (attacks <? cap) then
      let '(remainingHealth', calls') :=
        attackOnce h am ac damage crit remainingHealth calls in
      attackLoop h am ac damage crit cap fuel remainingHealth' (attacks + 1) calls'
    else (remainingHealth, attacks, calls).
Proof.
  simpl. destruct (Qlt_bool 0 remainingHealth && (attacks <? cap)); reflexivity.
Qed.

Lemma attackLoop_stop h am ac damage crit cap fuel remainingHealth attacks calls :
  (remainingHealth <= 0)%Q ->
  attackLoop h am ac damage crit cap fuel remainingHealth attacks calls
  = (remainingHealth, attacks, calls).
Proof.
  intros Hrh. apply Qlt_bool_false in Hrh.
  destruct fuel; simpl; rewrite Hrh; reflexivity.
Qed.

(** Without critical rules and with an armor class of at most 1 plus the
    attack modifier, every attack hits and deals the fixed damage. *)
Lemma attackOnce_sure_hit h am ac d remainingHealth calls :
  goodRandom h -> (ac <= 1 + am)%Q ->
  attackOnce h am ac (fixedResult d) false remainingHealth calls
  = ((remainingHealth - inject_Z d)%Q, N.succ calls).
Proof.
  intros Hgood Hac. rewrite attackOnce_attackHits. cbv zeta.
  pose proof (d20Roll_range h calls Hgood) as Hd.
  unfold attackHits.
  set (d20Roll := Qfloor (Math_random h calls * 20) + 1) in *.
  assert (Hhit : Qle_bool ac (inject_Z d20Roll + am) = true).
  { apply Qle_bool_iff.
    assert ((1 <= inject_Z d20Roll)%Q)
      by (change 1%Q with (inject_Z 1); rewrite <- Zle_Qle; lia).
    lra. }
  rewrite Hhit. reflexivity.
Qed.

Lemma frequency_replicate n c i :
  frequency (replicate n c) i = if c =? i then Z.of_nat n else 0.
Proof.
  induction n as [|n IH]; [destruct (c =? i); reflexivity|].
  change (replicate (S n) c) with (c :: replicate n c).
  rewrite frequency_cons, IH. destruct (c =? i); lia.
Qed.

Lemma flat_map_pointAt_nil attackCounts totalCount l :
  (forall i, In i l -> countedAt attackCounts i = 0) ->
  flat_map (pointAt attackCounts totalCount) l = [].
Proof.
  induction l as [|i l IH]; intros Hz; [reflexivity|].
  simpl. rewrite IH by (intros j Hj; apply Hz; right; exact Hj).
  unfold pointAt. rewrite (Hz i) by (left; reflexivity). reflexivity.
Qed.

(** X25: on a random source with values in [0, 1), without critical
    rules, with an armor class of at most 1 plus the attack modifier and
    fixed damage of at least the health, every trial is over after one
    attack: the PMF is the single point at 1 with probability 1, the mean
    is 1, the variance 0, and mode, median and all percentile markers
    are 1. *)
Theorem timeToKillWithCriticals_certain_kill
    (h : Host) (attackModifier armorClass : Q) (fixedDamage : Z) (health : Q)
    (calls : N) :
  goodRandom h -> (0 < health)%Q -> (health <= inject_Z fixedDamage)%Q ->
  (armorClass <= 1 + attackModifier)%Q ->
  exists res q m v,
    fst (timeToKillWithCriticals h attackModifier armorClass
           (fixedResult fixedDamage) health false calls) = Ok res /\
    pmf (stats res) = [{| attacks := 1; prob := q |}] /\ (q == 1)%Q /\
    mean (stats res) = Fin m /\ (m == 1)%Q /\
    variance (stats res) = Fin v /\ (v == 0)%Q /\
    mode res = 1 /\ median res = 1 /\
    percentiles res = {| p25 := 1; p75 := 1; p90 := 1; p95 := 1 |}.
Proof.
  intros Hgood Hh Hd Hac.
  set (damage := fixedResult fixedDamage).
  set (counts := fst (simLoop h attackModifier armorClass damage health false
                        maxAttacks (Z.to_nat numSimulations)
                        (replicate (Z.to_nat (maxAttacks + 1)) 0) calls)).
  destruct (simulation_counts h attackModifier armorClass damage health false
              maxAttacks (Z.to_nat numSimulations) calls Hh ltac:(reflexivity))
    as [Hcount Htotal].
  fold counts in Hcount, Htotal.
  assert (Hout : fst (trialOutcomes h attackModifier armorClass damage health
                        false maxAttacks (Z.to_nat numSimulations) calls)
                 = replicate (Z.to_nat numSimulations) 1).
  { apply trialOutcomes_constant. intros calls'. unfold trial.
    change (Z.to_nat maxAttacks) with (S 199).
    rewrite attackLoop_step.
    rewrite (proj2 (Qlt_bool_iff 0 health) Hh). cbn [andb].
    change (0 <? maxAttacks) with true. cbv iota.
    unfold damage. rewrite attackOnce_sure_hit by assumption.
    rewrite attackLoop_stop by lra. reflexivity. }
  rewrite Hout in Hcount, Htotal.
  rewrite retainedCount_replicate in Htotal.
  change (1 <? maxAttacks) with true in Htotal. cbv iota in Htotal.
  assert (Hpmf : fst (fst (empiricalLoop maxAttacks counts
                             (totalCountLoop maxAttacks counts)))
                 = [{| attacks := 1;
                       prob := (inject_Z 100000 / inject_Z 100000)%Q |}]).
  { rewrite empiricalLoop_pmf, Htotal.
    change maxAttacks with 200 at 1. rewrite (seqZ_cons 1 200) by lia.
    cbn [flat_map].
    rewrite flat_map_pointAt_nil.
    - unfold pointAt. rewrite (Hcount 1) by (unfold maxAttacks; lia).
      rewrite frequency_replicate. reflexivity.
    - intros i Hi. apply In_seqZ in Hi.
      rewrite Hcount by (unfold maxAttacks; lia).
      rewrite frequency_replicate.
      destruct (Z.eqb_spec 1 i); [lia|]. destruct (i <? maxAttacks); reflexivity. }
  pose proof (summarize_moments h attackModifier armorClass damage health
                false maxAttacks counts) as (Hmean & Hvar & _ & Hmode).
  pose proof (empiricalLoop_moments maxAttacks counts
                (totalCountLoop maxAttacks counts)) as [Hm Hs].
  pose proof (summarize_fields h attackModifier armorClass damage health
                false maxAttacks counts) as (Hp & Hmed & H25 & H75 & H90 & H95).
  cbv zeta in Hmean, Hvar, Hmode, Hm, Hs, Hp, Hmed, H25, H75, H90, H95.
  rewrite Hpmf in Hm, Hs, Hmode, Hp, Hmed, H25, H75, H90, H95.
  eexists _, _, _, _.
  split; [apply timeToKillWithCriticals_returns, Hh|].
  fold damage. fold counts.
  split; [exact Hp|]. split; [reflexivity|].
  split; [exact Hmean|]. split; [rewrite Hm; reflexivity|].
  split; [exact Hvar|]. split; [rewrite Hm, Hs; reflexivity|].
  split; [rewrite Hmode; reflexivity|].
  split; [rewrite Hmed; reflexivity|].
  destruct (percentiles _) as [a b c d]. simpl in H25, H75, H90, H95.
  rewrite H25, H75, H90, H95. reflexivity.
Qed.

Lemma timeToKillWithCriticals_certain_kill_witness :
  exists res q m v,
    fst (timeToKillWithCriticals firstMissHost 5 6 (fixedResult 100) 1
           false 0%N) = Ok res /\
    pmf (stats res) = [{| attacks := 1; prob := q |}] /\ (q == 1)%Q /\
    mean (stats res) = Fin m /\ (m == 1)%Q /\
    variance (stats res) = Fin v /\ (v == 0)%Q /\
    mode res = 1 /\ median res = 1 /\
    percentiles res = {| p25 := 1; p75 := 1; p90 := 1; p95 := 1 |}.
Proof.
  apply (timeToKillWithCriticals_certain_kill firstMissHost 5 6 100 1 0%N);
    [exact firstMissHost_good | reflexivity | discriminate | discriminate].
Defined.

(** ** The chart component *)

Lemma parseDamageInput_rejected s :
  isValidDamageInput s = false -> parseDamageInput s = fallbackDamage.
Proof.
  unfold isValidDamageInput, parseDamageInput.
  set (cleaned := trim (list_ascii_of_string s)).
  intros Hinv. apply orb_false_iff in Hinv as [Hdice Hfixed].
  apply bool_decide_eq_false in Hdice, Hfixed.
  destruct (fixedRegex cleaned) as [d|]; [exfalso; apply Hfixed; eauto|].
  destruct (diceRegex cleaned) as [g|]; [exfalso; apply Hdice; eauto|].
  reflexivity.
Qed.

(** X26: [calculateDistribution] stores null exactly when the enemy's
    hit points are not positive, and then makes no call of
    [Math.random()]; otherwise it stores the result of the Monte Carlo
    engine.  A damage text that [isValidDamageInput] rejects is not
    reported: the simulation runs as if the text were 1. *)
Theorem calculateDistribution_results (h : Host) (characterStats : CharacterStats)
    (lastValidDamageInput : string) (calls : N) :
  ((enemyHP characterStats <= 0)%Q ->
   calculateDistribution h characterStats lastValidDamageInput calls
   = (None, calls)) /\
  ((0 < enemyHP characterStats)%Q ->
   exists res,
     fst (calculateDistribution h characterStats lastValidDamageInput calls)
     = Some res /\
     fst (timeToKillWithCriticals h (attackBonus characterStats)
            (enemyAC characterStats) (parseDamageInput lastValidDamageInput)
            (enemyHP characterStats) (useCriticalMechanics characterStats)
            calls) = Ok res) /\
  (isValidDamageInput lastValidDamageInput = false ->
   calculateDistribution h characterStats lastValidDamageInput calls
   = calculateDistribution h characterStats "1" calls).
Proof.
  split; [|split].
  - intros Hle. unfold calculateDistribution, bind.
    rewrite timeToKillWithCriticals_throw by exact Hle. reflexivity.
  - intros Hh. unfold calculateDistribution, bind, ret.
    pose proof (timeToKillWithCriticals_returns h (attackBonus characterStats)
                  (enemyAC characterStats) (parseDamageInput lastValidDamageInput)
                  (enemyHP characterStats) (useCriticalMechanics characterStats)
                  calls Hh) as Hret.
    destruct (timeToKillWithCriticals _ _ _ _ _ _ calls) as [out calls1].
    cbn [fst] in Hret. subst out. eexists. split; reflexivity.
  - intros Hinv. unfold calculateDistribution.
    rewrite (parseDamageInput_rejected _ Hinv). reflexivity.
Qed.

(** ** Damage that never brings the target down *)

Lemma attackLoop_never_down h am ac damage crit cap fuel remainingHealth attacks calls :
  (forall rh calls', (0 < rh)%Q ->
     (0 < fst (attackOnce h am ac damage crit rh calls'))%Q) ->
  (0 < remainingHealth)%Q -> attacks <= cap ->
  (Z.to_nat (cap - attacks) <= fuel)%nat ->
  snd (fst (attackLoop h am ac damage crit cap fuel remainingHealth attacks calls))
  = cap.
Proof.
  intros Hkeep. revert remainingHealth attacks calls.
  induction fuel as [|fuel IH]; intros rh a calls Hrh Ha Hf.
  - simpl. rewrite (proj2 (Qlt_bool_iff 0 rh) Hrh).
    destruct (Z.ltb_spec a cap) as [Hlt|Hge]; simpl; lia.
  - rewrite attackLoop_step, (proj2 (Qlt_bool_iff 0 rh) Hrh).
    destruct (Z.ltb_spec a cap) as [Hlt|Hge]; cbn [andb fst snd]; [|lia].
    pose proof (Hkeep rh calls Hrh) as Hk.
    destruct (attackOnce h am ac damage crit rh calls) as [rh' calls1].
    cbn [fst] in Hk. apply IH; [exact Hk | lia | lia].
Qed.

Lemma attackOnce_zero_damage h am ac crit remainingHealth calls :
  (0 < remainingHealth)%Q ->
  (0 < fst (attackOnce h am ac (fixedResult 0) crit remainingHealth calls))%Q.
Proof.
  intros Hrh. rewrite attackOnce_attackHits. cbv zeta.
  destruct (attackHits _ _ _ _) as [[|] isCritical]; [|exact Hrh].
  change (rollDamage h (fixedResult 0) isCritical (N.succ calls))
    with (if isCritical then 0 * 2 else 0, N.succ calls).
  cbn [fst].
  assert (E : (inject_Z (if isCritical then 0 * 2 else 0) == 0)%Q)
    by (destruct isCritical; reflexivity).
  rewrite E. lra.
Qed.

(** X27: the valid damage text 0 parses to fixed damage 0, and with it,
    for positive health and on any random source, no trial brings the
    target down: the engine returns infinite hitsNeeded and an empty PMF
    with mean 0. *)
Theorem timeToKillWithCriticals_zero_damage
    (h : Host) (attackModifier armorClass health : Q) (crit : bool) (calls : N) :
  (0 < health)%Q ->
  isValidDamageInput "0" = true /\
  parseDamageInput "0" = fixedResult 0 /\
  exists res,
    fst (timeToKillWithCriticals h attackModifier armorClass
           (parseDamageInput "0") health crit calls) = Ok res /\
    hitsNeeded (stats res) = PosInf /\
    pmf (stats res) = [] /\ mean (stats res) = Fin 0 /\
    mode res = 1 /\ median res = 1.
Proof.
  intros Hh. split; [reflexivity|]. split; [reflexivity|].
  change (parseDamageInput "0") with (fixedResult 0).
  eexists. split; [apply timeToKillWithCriticals_returns, Hh|].
  assert (Hz : totalCountLoop maxAttacks
                 (fst (simLoop h attackModifier armorClass (fixedResult 0) health
                         crit maxAttacks (Z.to_nat numSimulations)
                         (replicate (Z.to_nat (maxAttacks + 1)) 0) calls)) = 0).
  { destruct (simulation_counts h attackModifier armorClass (fixedResult 0)
                health crit maxAttacks (Z.to_nat numSimulations) calls
                Hh ltac:(reflexivity)) as [_ ->].
    rewrite (trialOutcomes_constant _ _ _ _ _ _ _ maxAttacks).
    - rewrite retainedCount_replicate. reflexivity.
    - intros calls'. unfold trial.
      apply attackLoop_never_down;
        [intros; apply attackOnce_zero_damage; assumption | exact Hh
        | unfold maxAttacks; lia | lia]. }
  destruct (summarize_empty h attackModifier armorClass (fixedResult 0) health
              crit maxAttacks _ Hz) as (H1 & H2 & _ & _ & H3 & H4 & _).
  split; [|repeat split; assumption].
  unfold summarize.
  destruct (empiricalLoop _ _ _) as [[pmf0 m] v]. destruct (modeLoop pmf0).
  cbn [stats hitsNeeded]. unfold effectiveHitsNeeded, jsdiv.
  apply Qgt_alt in Hh.
  destruct crit; cbn [fixedResult DamageResult.average DamageResult.criticalAverage];
    (replace (Qeq_bool _ 0) with true by reflexivity); rewrite Hh; reflexivity.
Qed.

Lemma timeToKillWithCriticals_zero_damage_witness :
  isValidDamageInput "0" = true /\
  parseDamageInput "0" = fixedResult 0 /\
  exists res,
    fst (timeToKillWithCriticals firstMissHost 5 15 (parseDamageInput "0") 25
           true 0%N) = Ok res /\
    hitsNeeded (stats res) = PosInf /\
    pmf (stats res) = [] /\ mean (stats res) = Fin 0 /\
    mode res = 1 /\ median res = 1.
Proof.
  apply (timeToKillWithCriticals_zero_damage firstMissHost 5 15 25 true 0%N).
  reflexivity.
Defined.
